(** * dywypi: event and command dispatch of the plugin manager

    A shallow embedding of [dywypi/event.py] and [dywypi/plugin.py]:
    the event classes and their method resolution order, the listener and
    command registries of [Plugin], the routing done by [PluginManager.fire],
    and the per-plugin data seen through [PluginDataWrapper].

    Python objects that the code mutates in place (the event loop that
    receives the scheduled tasks, the [plugin_data] dictionary of the
    manager, the instances built by [per_channel]) live in an explicit
    store that is threaded through a state-and-exception monad. *)

From Stdlib Require Import Ascii String.
From stdpp Require Import base option list gmap strings.


(** ** Python [str] operations used by the dispatcher

    A character is a code point below 256, which is what [ascii] holds. *)
Module PyStr.

(** [str.isspace] on one code point below 256: the ASCII controls
    TAB..CR, the separators FS..US, the space, NEL and NBSP. *)
Definition isspace (c : ascii) : bool :=
  match c with
  | "009" | "010" | "011" | "012" | "013"
  | "028" | "029" | "030" | "031" | " "
  | "133" | "160" => true
  | _ => false
  end%char.

(** Truth value of a string: [bool(s)]. *)
Definition truthy (s : string) : bool :=
  match s with "" => false | _ => true end.

(** [s.startswith(p)]. *)
Fixpoint startswith (s p : string) {struct p} : bool :=
  match p, s with
  | "", _ => true
  | String a p', String b s' => if decide (a = b) then startswith s' p' else false
  | String _ _, "" => false
  end.

(** [s[n]], which raises [IndexError] (here [None]) out of range. *)
Fixpoint index (s : string) (n : nat) : option ascii :=
  match s, n with
  | "", _ => None
  | String c _, 0 => Some c
  | String _ s', S n' => index s' n'
  end.

(** [s[n:]]; a slice never raises. *)
Fixpoint slice_from (s : string) (n : nat) {struct n} : string :=
  match n, s with
  | 0, _ => s
  | S n', String _ s' => slice_from s' n'
  | S _, "" => ""
  end.

(** [c in t] for a one-character [c]. *)
Fixpoint contains (t : string) (c : ascii) : bool :=
  match t with
  | "" => false
  | String d t' => if decide (c = d) then true else contains t' c
  end.

Fixpoint lstrip (s : string) : string :=
  match s with
  | "" => ""
  | String c s' => if isspace c then lstrip s' else s
  end.

Fixpoint rstrip (s : string) : string :=
  match s with
  | "" => ""
  | String c s' =>
      match rstrip s' with
      | "" => if isspace c then "" else String c ""
      | r => String c r
      end
  end.

(** [s.strip()]. *)
Definition strip (s : string) : string := rstrip (lstrip s).

(** The longest prefix without whitespace, and what follows it. *)
Fixpoint span_word (s : string) : string * string :=
  match s with
  | "" => ("", "")
  | String c s' =>
      if isspace c then ("", s)
      else let '(w, r) := span_word s' in (String c w, r)
  end.

(** [s.split(None, maxsplit)], CPython's [split_whitespace]: at most
    [maxcount] words are cut off, then the rest, without its leading
    whitespace, is the last item when it is not empty.  Every round
    consumes a character, so [fuel] rounds are enough when [fuel] exceeds
    the length of [s]. *)
Fixpoint split_ws (fuel maxcount : nat) (s : string) : list string :=
  match fuel with
  | 0 => []
  | S fuel' =>
      match lstrip s with
      | "" => []
      | t =>
          match maxcount with
          | 0 => [t]
          | S m => let '(w, r) := span_word t in w :: split_ws fuel' m r
          end
      end
  end.

(** [s.split(None, n)]. *)
Definition split_max (n : nat) (s : string) : list string :=
  split_ws (S (String.length s)) n s.

(** [s.split()]: no bound on the number of items. *)
Definition split (s : string) : list string :=
  split_ws (S (String.length s)) (String.length s) s.

(** [rfind_dot s] cuts [s] at its last ['.'], when it has one. *)
Fixpoint rfind_dot (s : string) : option (string * string) :=
  match s with
  | "" => None
  | String c s' =>
      match rfind_dot s' with
      | Some (h, t) => Some (String c h, t)
      | None => if decide (c = "."%char) then Some ("", s') else None
      end
  end.

(** [s.rpartition('.')]: head, separator, tail; without a separator
    the whole string is the tail. *)
Definition rpartition_dot (s : string) : string * string * string :=
  match rfind_dot s with
  | Some (h, t) => (h, ".", t)
  | None => ("", "", s)
  end.

End PyStr.

(** ** Classes and their method resolution order

    Every class of the two modules has one base, so a class is its name
    together with its base, and [cls.__mro__] is the chain of bases up to
    [object].  Two classes are the same object exactly when the terms are
    equal. *)
Module Class.

Inductive t : Type :=
| object
| Sub (name : string) (base : t).

Fixpoint mro (c : t) : list t :=
  c :: match c with
       | object => []
       | Sub _ b => mro b
       end.

Fixpoint to_names (c : t) : list string :=
  match c with
  | object => []
  | Sub n b => n :: to_names b
  end.

Fixpoint of_names (l : list string) : t :=
  match l with
  | [] => object
  | n :: l' => Sub n (of_names l')
  end.

#[global] Instance eq_dec : EqDecision t.
Proof. solve_decision. Defined.

#[global] Instance countable : Countable t.
Proof.
  apply (inj_countable' to_names of_names).
  intros c; induction c as [|n b IH]; simpl; congruence.
Defined.

(** [issubclass(c, d)]. *)
Definition issubclass (c d : t) : bool := bool_decide (d ∈ mro c).

(** event.py *)
Definition Event : t := Sub "Event" object.
Definition Message : t := Sub "Message" Event.
(** plugin.py *)
Definition CommandMessage : t := Sub "CommandMessage" Message.
Definition _DummyEvent : t := Sub "_DummyEvent" object.
Definition Load : t := Sub "Load" _DummyEvent.

End Class.

(** ** Objects *)

(** The client of an event: its nickname and the event loop it runs on. *)
Record Client : Type := { nick : string; loop : nat }.

(** The raw protocol message; only its positional arguments are read. *)
Record RawMessage : Type := { args : list string }.

(** The attributes that [CommandMessage.__init__] adds. *)
Record CommandAttrs : Type := {
  command_name : string;
  argstr : string;
  command_args : list string
}.

(** An object that is delivered as an event.  [client] and [raw_message]
    are the attributes that [Event.__init__] sets, together with [loop], the
    loop of the client; an object can be read for them only when
    [has_event_attrs] holds (see below).  [command_attrs] holds the
    attributes [command_name], [argstr] and [args] of an object that has
    them, and is absent otherwise.  The classes of event.py give an event no
    other attribute: there is no [source] and no [target]. *)
Record event : Type := {
  type : Class.t;
  client : Client;
  raw_message : RawMessage;
  command_attrs : option CommandAttrs
}.

(** [EventWrapper]: the event and the plugin whose [PluginData] the [data]
    view is bound to (plugins are unique by name). *)
Record EventWrapper : Type := {
  wrapped : event;
  data : string
}.

(** A task handed to [asyncio.async]: the coroutine function, its one
    argument and the loop.  Coroutine functions are told apart by a number. *)
Record Task : Type := {
  task_coro : nat;
  task_event : EventWrapper;
  task_loop : nat
}.

Record PluginCommand : Type := { coro : nat; is_global : bool }.

Record plugin : Type := {
  name : string;
  listeners : gmap Class.t (list nat);
  commands : gmap string PluginCommand
}.

(** An object returned by [cls(channel)] in [per_channel].  For an object
    built by a class of the program, [inst_id] is its identity, fresh at
    every construction, and [inst_channel] the channel it was built for.  The
    values of [bool] and [str] are objects too: [True] and [False] are
    [inst_id] 1 and 0 of the class [bool], a string is the [inst_channel] of
    the class [str]; equal records are one object. *)
Record instance : Type := {
  inst_id : nat;
  inst_class : string;
  inst_channel : string
}.

(** [PluginData].  [general] is [None] once the attribute has been deleted;
    keys and values of the general mapping are strings here, slot classes are
    named by strings. *)
Record PluginData : Type := {
  general : option (gmap string string);
  per_channel : gmap string (gmap string instance)
}.

(** The mutable state that dispatch works on: the two attributes of the
    [PluginManager], the tasks created on the event loops in creation order,
    and the identity of the next object to be built. *)
Record World : Type := {
  loaded_plugins : list (string * plugin);
  plugin_data : gmap string PluginData;
  tasks : list Task;
  next_id : nat
}.

Inductive exn : Type :=
| IndexError
| KeyError
| AttributeError
| TypeError
| NameError.

Inductive result (A : Type) : Type :=
| Ok (a : A)
| Raise (e : exn).
Arguments Ok {A} a.
Arguments Raise {A} e.

(** A computation reads and updates the world and returns or raises; what
    was done before an exception stays done. *)
Definition M (A : Type) : Type := World → result A * World.

#[global] Instance M_ret : MRet M := λ A a w, (Ok a, w).

#[global] Instance M_bind : MBind M := λ A B f m w,
  match m w with
  | (Ok a, w') => f a w'
  | (Raise e, w') => (Raise e, w')
  end.

Definition raise {A : Type} (e : exn) : M A := λ w, (Raise e, w).

Definition get_world : M World := λ w, (Ok w, w).

Definition put_world (w : World) : M unit := λ _, (Ok tt, w).

(** A [for] loop whose body yields futures that are gathered with
    [futures.extend] or [futures.append]. *)
Fixpoint for_extend {A B : Type} (f : A → M (list B)) (l : list A) : M (list B) :=
  match l with
  | [] => mret []
  | x :: l' => ys ← f x; zs ← for_extend f l'; mret (ys ++ zs)
  end.

(** A [for] loop whose body is run for its effect. *)
Fixpoint for_each {A : Type} (f : A → M unit) (l : list A) : M unit :=
  match l with
  | [] => mret tt
  | x :: l' => f x;; for_each f l'
  end.

Definition set_tasks (ts : list Task) (w : World) : World :=
  {| loaded_plugins := loaded_plugins w; plugin_data := plugin_data w;
     tasks := ts; next_id := next_id w |}.

Definition set_plugin_data (d : gmap string PluginData) (w : World) : World :=
  {| loaded_plugins := loaded_plugins w; plugin_data := d;
     tasks := tasks w; next_id := next_id w |}.

Definition set_loaded_plugins (l : list (string * plugin)) (w : World) : World :=
  {| loaded_plugins := l; plugin_data := plugin_data w;
     tasks := tasks w; next_id := next_id w |}.

Definition set_next_id (n : nat) (w : World) : World :=
  {| loaded_plugins := loaded_plugins w; plugin_data := plugin_data w;
     tasks := tasks w; next_id := n |}.

(** [asyncio.async(coro(event), loop=loop)]: the task is created on the
    loop and its handle returned. *)
Definition async (c : nat) (ev : EventWrapper) (lp : nat) : M Task := λ w,
  let t := {| task_coro := c; task_event := ev; task_loop := lp |} in
  (Ok t, set_tasks (tasks w ++ [t]) w).

(** ** Dictionaries that are iterated: keys in insertion order *)
Fixpoint dict_get {V : Type} (k : string) (d : list (string * V)) : option V :=
  match d with
  | [] => None
  | (k', v) :: d' => if decide (k = k') then Some v else dict_get k d'
  end.

Fixpoint dict_set {V : Type} (k : string) (v : V) (d : list (string * V))
  : list (string * V) :=
  match d with
  | [] => [(k, v)]
  | (k', v') :: d' =>
      if decide (k = k') then (k, v) :: d' else (k', v') :: dict_set k v d'
  end.

Definition dict_values {V : Type} (d : list (string * V)) : list V := d.*2.

(** ** event.py: the properties of [Message] *)
Module Message.

(** [raw_message.args[i]] on an instance of [Message]; other events have
    no such attribute. *)
Definition arg (i : nat) (ev : event) : M string :=
  if Class.issubclass (type ev) Class.Message then
    match args (raw_message ev) !! i with
    | Some a => mret a
    | None => raise IndexError
    end
  else raise AttributeError.

Definition channel (ev : event) : M string := arg 0 ev.

Definition message (ev : event) : M string := arg 1 ev.

End Message.

(** The attributes of [Event.__init__] are there on an instance of a
    class that derives from [Event].  An instance of another class, such as
    [Load], which derives from [_DummyEvent] alone, was built without
    [Event.__init__] and has no [client], no [loop] and no [raw_message].
    An object with the attributes of a [CommandMessage] stands for an
    instance of that subclass of [Event]. *)
Definition has_event_attrs (ev : event) : bool :=
  Class.issubclass (type ev) Class.Event
  || bool_decide (is_Some (command_attrs ev)).

(** [event.loop]. *)
Definition event_loop (ev : event) : M nat :=
  if has_event_attrs ev then mret (loop (client ev)) else raise AttributeError.

(** [event.source] and [event.target]: no class of event.py sets or
    declares these attributes, so that reading them raises
    [AttributeError]. *)
Definition event_source (ev : event) : M string := raise AttributeError.

Definition event_target (ev : event) : M string := raise AttributeError.

(** [CommandMessage(source, target, message, command_name, argstr,
    client=..., raw=...)]: [CommandMessage.__init__] starts with
    [super().__init__(source, target, message, client=..., raw=...)], which
    is [Event.__init__(self, client, raw_message)] given three positional
    arguments and two unknown keywords; this raises [TypeError] before any
    attribute is set. *)
Definition CommandMessage_init (source target message command_name argstr : string)
    (client' : Client) (raw : RawMessage) : M event :=
  raise TypeError.

(** An object on the client and raw message of [ev] that has the
    attributes of a [CommandMessage]: [command_name], [argstr] and
    [args = argstr.strip().split()].  The constructor above builds none;
    such an object is what [fire_command] and the two command routes of the
    manager expect as their event. *)
Definition command_object (ev : event) (cn a : string) : event :=
  {| type := Class.CommandMessage;
     client := client ev;
     raw_message := raw_message ev;
     command_attrs := Some {| command_name := cn; argstr := a;
                              command_args := PyStr.split (PyStr.strip a) |} |}.

(** ** [BasePlugin] and [Plugin] *)
Module Plugin.

(** [Plugin.__init__] with [BasePlugin.__init__]: the new plugin enters the
    registry [_known_plugins], where its name has to be free. *)
Definition init (n : string) (known : gmap string plugin)
  : result (plugin * gmap string plugin) :=
  match known !! n with
  | Some _ => Raise NameError
  | None =>
      let p := {| name := n; listeners := ∅; commands := ∅ |} in
      Ok (p, <[n := p]> known)
  end.

(** The loop of the decorator in [on]: walk the method resolution order,
    stop at [Event], append the handler under every class met before. *)
Fixpoint on_loop (f : nat) (l : list Class.t) (ls : gmap Class.t (list nat))
  : gmap Class.t (list nat) :=
  match l with
  | [] => ls
  | c :: l' =>
      if decide (c = Class.Event) then ls
      else on_loop f l' (<[c := default [] (ls !! c) ++ [f]]> ls)
  end.

(** [@plugin.on(event_cls)] applied to the handler [f]. *)
Definition on (event_cls : Class.t) (f : nat) (p : plugin) : result plugin :=
  if Class.issubclass event_cls Class.Event
     || Class.issubclass event_cls Class._DummyEvent
  then Ok {| name := name p;
             listeners := on_loop f (Class.mro event_cls) (listeners p);
             commands := commands p |}
  else Raise TypeError.

(** [@plugin.command(command_name, is_global=...)] applied to [f]. *)
Definition command (cn : string) (is_global' : bool) (f : nat) (p : plugin)
  : plugin :=
  {| name := name p;
     listeners := listeners p;
     commands := <[cn := {| coro := f; is_global := is_global' |}]> (commands p) |}.

(** [Plugin.fire]; [event.type] and [event.loop] are those of the wrapped
    event, and [event.loop] is read once for every listener.  A class
    without listeners reads as the empty list. *)
Definition fire (p : plugin) (ev : EventWrapper) : M (list Task) :=
  for_extend
    (λ listener, lp ← event_loop (wrapped ev); t ← async listener ev lp; mret [t])
    (default [] (listeners p !! type (wrapped ev))).

(** [Plugin.fire_command]. *)
Definition fire_command (p : plugin) (ev : EventWrapper) (is_global' : bool)
  : M (list Task) :=
  match command_attrs (wrapped ev) with
  | None => raise AttributeError
  | Some c =>
      match commands p !! command_name c with
      | Some cmd =>
          if is_global cmd || negb is_global'
          then lp ← event_loop (wrapped ev); t ← async (coro cmd) ev lp; mret [t]
          else mret []
      | None => mret []
      end
  end.

End Plugin.

(** ** [PluginData] and [PluginDataWrapper] *)

(** [PluginData()]. *)
Definition PluginData_init : PluginData :=
  {| general := Some ∅; per_channel := ∅ |}.

(** [plugin_data[key]] on the [defaultdict(PluginData)]. *)
Definition data_of (w : World) (key : string) : PluginData :=
  default PluginData_init (plugin_data w !! key).

Definition set_data (key : string) (d : PluginData) : M unit := λ w,
  (Ok tt, set_plugin_data (<[key := d]> (plugin_data w)) w).

(** What the call [cls(channel)] does, by the name of the slot class:
    [bool] and [str] are the builtins, which hand out a value that is one
    object however often it is asked for ([bool(channel)] is [True] or
    [False], [str(channel)] is the channel itself); [object] takes no
    argument and raises [TypeError]; every other name is a class of the
    program with the constructor it inherits from [object], which builds a
    new object at every call. *)
Inductive construction : Type :=
| New
| Value (i : instance)
| Fails (e : exn).

Definition construct (cls channel : string) : construction :=
  if decide (cls = "bool") then
    Value {| inst_id := if PyStr.truthy channel then 1 else 0;
             inst_class := "bool"; inst_channel := "" |}
  else if decide (cls = "str") then
    Value {| inst_id := 0; inst_class := "str"; inst_channel := channel |}
  else if decide (cls = "object") then Fails TypeError
  else New.

Module PluginDataWrapper.

(** [data[key]]. *)
Definition getitem (ev : EventWrapper) (key : string) : M string :=
  w ← get_world;
  match general (data_of w (data ev)) with
  | None => raise AttributeError
  | Some g =>
      match g !! key with
      | Some v => mret v
      | None => raise KeyError
      end
  end.

(** [data[key] = value]. *)
Definition setitem (ev : EventWrapper) (key value : string) : M unit :=
  w ← get_world;
  let pd := data_of w (data ev) in
  match general pd with
  | None => raise AttributeError
  | Some g =>
      set_data (data ev)
        {| general := Some (<[key := value]> g); per_channel := per_channel pd |}
  end.

(** [del data[key]], that is [del self._plugin_data.general]. *)
Definition delitem (ev : EventWrapper) (key : string) : M unit :=
  w ← get_world;
  let pd := data_of w (data ev) in
  match general pd with
  | None => raise AttributeError
  | Some _ =>
      set_data (data ev) {| general := None; per_channel := per_channel pd |}
  end.

(** [len(data)]. *)
Definition len (ev : EventWrapper) : M nat :=
  w ← get_world;
  match general (data_of w (data ev)) with
  | None => raise AttributeError
  | Some g => mret (size g)
  end.

(** [per_channel(cls)]: the object kept for the slot class and the
    channel of the event, which is what [cls(channel)] returned at the first
    request.  Reading [d[channel]] creates the dictionary of the channel,
    also when [cls(channel)] then raises. *)
Definition per_channel (ev : EventWrapper) (cls : string) : M instance :=
  channel ← Message.channel (wrapped ev);
  w ← get_world;
  let pd := data_of w (data ev) in
  let d := default ∅ (per_channel pd !! channel) in
  match d !! cls with
  | Some i => mret i
  | None =>
      match construct cls channel with
      | Fails e =>
          set_data (data ev)
            {| general := general pd;
               per_channel := <[channel := d]> (per_channel pd) |};;
          raise e
      | Value i =>
          set_data (data ev)
            {| general := general pd;
               per_channel := <[channel := <[cls := i]> d]> (per_channel pd) |};;
          mret i
      | New =>
          let i := {| inst_id := next_id w; inst_class := cls;
                      inst_channel := channel |} in
          put_world (set_next_id (S (next_id w)) w);;
          set_data (data ev)
            {| general := general pd;
               per_channel := <[channel := <[cls := i]> d]> (per_channel pd) |};;
          mret i
      end
  end.

End PluginDataWrapper.

(** ** [PluginManager] *)
Module PluginManager.

(** [PluginManager()] on a new event loop. *)
Definition init : World :=
  {| loaded_plugins := []; plugin_data := ∅; tasks := []; next_id := 0 |}.

(** [load(plugin_name)], with [known] the registry [known_plugins]. *)
Definition load (known : gmap string plugin) (plugin_name : string) : M unit :=
  w ← get_world;
  match dict_get plugin_name (loaded_plugins w) with
  | Some _ => mret tt
  | None =>
      match known !! plugin_name with
      | None => raise KeyError
      | Some p =>
          put_world (set_loaded_plugins (dict_set (name p) p (loaded_plugins w)) w)
      end
  end.

(** [loadall()]: [load] on every name of the registry.  The registry is
    a map here, so that the names come in the order of the map and not in
    the order in which the plugins were made; which plugins end up loaded
    does not depend on it. *)
Definition loadall (known : gmap string plugin) : M unit :=
  for_each (λ '(name, _), load known name) (map_to_list known).

(** [EventWrapper(event, self.plugin_data[plugin], self)]: reading the
    [defaultdict] creates the data of a plugin that has none yet. *)
Definition _wrap_event (ev : event) (p : plugin) : M EventWrapper :=
  w ← get_world;
  set_data (name p) (data_of w (name p));;
  mret {| wrapped := ev; data := name p |}.

Definition _fire_on (ev : event) (p : plugin) : M (list Task) :=
  wrapped ← _wrap_event ev p;
  Plugin.fire p wrapped.

Definition _fire (ev : event) : M (list Task) :=
  w ← get_world;
  for_extend (_fire_on ev) (dict_values (loaded_plugins w)).

Definition _fire_global_command (command_event : event) : M (list Task) :=
  w ← get_world;
  for_extend
    (λ p, wrapped ← _wrap_event command_event p;
          Plugin.fire_command p wrapped true)
    (dict_values (loaded_plugins w)).

Definition _fire_plugin_command (plugin_name : string) (command_event : event)
  : M (list Task) :=
  w ← get_world;
  match dict_get plugin_name (loaded_plugins w) with
  | None => raise KeyError
  | Some p =>
      wrapped ← _wrap_event command_event p;
      Plugin.fire_command p wrapped false
  end.

(** [message.startswith(nick) and message[len(nick)] in ':, ']. *)
Definition is_command (message nick : string) : M bool :=
  if PyStr.startswith message nick then
    match PyStr.index message (String.length nick) with
    | Some c => mret (PyStr.contains ":, " c)
    | None => raise IndexError
    end
  else mret false.

(** [message.split(None, 1)] unpacked into two names, with the fallback of
    the [except ValueError] branch. *)
Definition split_command (message : string) : string * string :=
  match PyStr.split_max 1 message with
  | [command_name; argstr] => (command_name, argstr)
  | _ => (PyStr.strip message, "")
  end.

(** The first part of the [Message] branch of [fire], up to
    [rpartition]: for a message that is addressed or not public, the values
    of the locals [plugin_name], [command_name] and [argstr]; [None] for a
    regular public message. *)
Definition parse_command (ev : event) : M (option (string * string * string)) :=
  is_public ← Message.channel ev;
  text ← Message.message ev;
  is_cmd ← is_command text (nick (client ev));
  if is_cmd || negb (PyStr.truthy is_public) then
    let message :=
      if is_cmd then PyStr.slice_from text (String.length (nick (client ev)) + 1)
      else text in
    let '(command_name, argstr) := split_command message in
    let '(plugin_name, _, command_name) := PyStr.rpartition_dot command_name in
    mret (Some (plugin_name, command_name, argstr))
  else mret None.

(** The last part of that branch, [if plugin_name: ... else: ...]: the
    futures of the command event, from the plugin that is named or from all
    plugins. *)
Definition dispatch_command (plugin_name : string) (command_event : event)
  : M (list Task) :=
  if PyStr.truthy plugin_name then _fire_plugin_command plugin_name command_event
  else _fire_global_command command_event.

(** [PluginManager.fire].  Between the two parts above the command event
    is built, from [event.source], [event.target] and [event.message]. *)
Definition fire (ev : event) : M (list Task) :=
  futures ← _fire ev;
  if Class.issubclass (type ev) Class.Message then
    c ← parse_command ev;
    match c with
    | Some (plugin_name, command_name, argstr) =>
        source ← event_source ev;
        target ← event_target ev;
        message ← Message.message ev;
        command_event ←
          CommandMessage_init source target message command_name argstr
            (client ev) (raw_message ev);
        more ← dispatch_command plugin_name command_event;
        mret (futures ++ more)
    | None =>
        more ← _fire ev;
        mret (futures ++ more)
    end
  else mret futures.

End PluginManager.

(** ** Vocabulary of the statements *)

(** The wrapper that [_wrap_event] builds for a plugin. *)
Definition wrapper (ev : event) (p : plugin) : EventWrapper :=
  {| wrapped := ev; data := name p |}.

(** The task that [asyncio.async] creates for a coroutine function called
    on a wrapped event. *)
Definition task_of (ev : EventWrapper) (c : nat) : Task :=
  {| task_coro := c; task_event := ev; task_loop := loop (client (wrapped ev)) |}.

(** The coroutine functions listed for a class. *)
Definition listeners_for (p : plugin) (c : Class.t) : list nat :=
  default [] (listeners p !! c).

(** The tasks of one plugin, and of a sequence of plugins, for an event. *)
Definition listener_tasks (p : plugin) (ev : EventWrapper) : list Task :=
  task_of ev <$> listeners_for p (type (wrapped ev)).

Definition broadcast_tasks (ev : event) (ps : list plugin) : list Task :=
  ps ≫= λ p, listener_tasks p (wrapper ev p).

(** The tasks that [fire_command] creates on one plugin, and those of a
    global invocation on a sequence of plugins. *)
Definition command_tasks (p : plugin) (ev : EventWrapper) (is_global' : bool)
  : list Task :=
  match command_attrs (wrapped ev) with
  | Some c =>
      match commands p !! command_name c with
      | Some cmd =>
          if is_global cmd || negb is_global' then [task_of ev (coro cmd)] else []
      | None => []
      end
  | None => []
  end.

Definition global_command_tasks (cev : event) (ps : list plugin) : list Task :=
  ps ≫= λ p, command_tasks p (wrapper cev p) true.

(** [w'] is [w] after the tasks [ts] were created and nothing else changed:
    the same plugins are loaded, no object was built, and every plugin reads
    the data it read before. *)
Definition scheduled (ts : list Task) (w w' : World) : Prop :=
  loaded_plugins w' = loaded_plugins w
  ∧ tasks w' = tasks w ++ ts
  ∧ next_id w' = next_id w
  ∧ ∀ k, data_of w' k = data_of w k.

(** The instance that a plugin keeps for a channel and a slot class. *)
Definition stored (w : World) (k chan cls : string) : option instance :=
  per_channel (data_of w k) !! chan ≫= λ d, d !! cls.

(** What a first request of [per_channel] stores in the world [w]: the
    object that [cls(channel)] returns, if it returns. *)
Definition built (w : World) (cls chan : string) : option instance :=
  match construct cls chan with
  | New => Some {| inst_id := next_id w; inst_class := cls; inst_channel := chan |}
  | Value i => Some i
  | Fails _ => None
  end.

(** The stored instances of the classes that build new objects were built
    for their place, their identities are below the next identity, and no
    such identity is stored at two places. *)
Definition isolated (w : World) : Prop :=
  (∀ k c s i, stored w k c s = Some i → construct s c = New →
     inst_id i < next_id w ∧ inst_class i = s ∧ inst_channel i = c)
  ∧ (∀ k c s i k' c' s' i',
       stored w k c s = Some i → stored w k' c' s' = Some i' →
       construct s c = New → construct s' c' = New →
       inst_id i = inst_id i' → k = k' ∧ c = c' ∧ s = s').

(** What the transport and the handlers can do to the world: deliver an
    event, load a plugin, and use the data view of a wrapped event. *)
Inductive action : Type :=
| Fire (ev : event)
| Load (known : gmap string plugin) (plugin_name : string)
| PerChannel (ev : EventWrapper) (cls : string)
| GetItem (ev : EventWrapper) (key : string)
| SetItem (ev : EventWrapper) (key value : string)
| DelItem (ev : EventWrapper) (key : string)
| Len (ev : EventWrapper).

(** The world after an action, whether it returned or raised. *)
Definition perform (a : action) (w : World) : World :=
  match a with
  | Fire ev => (PluginManager.fire ev w).2
  | Load known n => (PluginManager.load known n w).2
  | PerChannel ev cls => (PluginDataWrapper.per_channel ev cls w).2
  | GetItem ev key => (PluginDataWrapper.getitem ev key w).2
  | SetItem ev key value => (PluginDataWrapper.setitem ev key value w).2
  | DelItem ev key => (PluginDataWrapper.delitem ev key w).2
  | Len ev => (PluginDataWrapper.len ev w).2
  end.

Definition run (l : list action) (w : World) : World :=
  foldl (λ v a, perform a v) w l.

(** The plugin whose data view an action goes through. *)
Definition view_of (a : action) : option string :=
  match a with
  | Fire _ | Load _ _ => None
  | PerChannel ev _ | GetItem ev _ | SetItem ev _ _ | DelItem ev _ | Len ev =>
      Some (data ev)
  end.

(** How often a coroutine function occurs among tasks. *)
Definition times (h : nat) (ts : list Task) : nat :=
  length (filter (λ t, task_coro t = h) ts).

(** A computation that leaves the world alone. *)
Definition pure {A : Type} (m : M A) : Prop := ∃ r, ∀ w, m w = (r, w).

(** A computation that creates tasks and changes nothing else, whether it
    returns or raises. *)
Definition quiet {A : Type} (m : M A) : Prop :=
  ∀ w, ∃ ts, scheduled ts w (m w).2.

(** Every character of [s] passes the test [f]. *)
Fixpoint all_chars (f : ascii → bool) (s : string) : bool :=
  match s with
  | "" => true
  | String c s' => f c && all_chars f s'
  end.

(** [s] has no whitespace. *)
Definition no_space (s : string) : Prop :=
  all_chars (λ c, negb (PyStr.isspace c)) s = true.

(** In the registry every plugin is filed under its own name. *)
Definition registry_ok (known : gmap string plugin) : Prop :=
  ∀ n p, known !! n = Some p → name p = n.

(** A task that runs a listener of the plugin [p] for the class of its
    event, or the command of [p] that its event names, on the data view of
    [p]. *)
Definition registered_task (p : plugin) (t : Task) : Prop :=
  data (task_event t) = name p
  ∧ task_loop t = loop (client (wrapped (task_event t)))
  ∧ (task_coro t ∈ listeners_for p (type (wrapped (task_event t)))
     ∨ ∃ c cmd, command_attrs (wrapped (task_event t)) = Some c
                ∧ commands p !! command_name c = Some cmd
                ∧ coro cmd = task_coro t).

(** A computation that, with the plugins [ps] loaded, creates only tasks
    that pass [P] and changes nothing else, whether it returns or raises. *)
Definition creates {A : Type} (ps : list plugin) (P : Task → Prop) (m : M A)
  : Prop :=
  ∀ w, dict_values (loaded_plugins w) = ps →
       ∃ ts, scheduled ts w (m w).2 ∧ Forall P ts.

(** ** Sample objects

    A client, a message on it, plugins and managers for the examples. *)
Definition sample_client : Client := {| nick := "dywypi"; loop := 0 |}.

Definition sample_message (channel text : string) : event :=
  {| type := Class.Message; client := sample_client;
     raw_message := {| args := [channel; text] |}; command_attrs := None |}.

Definition empty_plugin (n : string) : plugin :=
  {| name := n; listeners := ∅; commands := ∅ |}.

(** Two plugins with commands, one with a listener on [Message], and a
    manager that has loaded the three. *)
Definition echo_plugin : plugin :=
  Plugin.command "echo" true 7 (Plugin.command "shout" true 8 (empty_plugin "echo")).

Definition other_plugin : plugin :=
  Plugin.command "shout" true 9 (empty_plugin "other").

Definition greeter_plugin : plugin :=
  {| name := "greeter"; listeners := {[Class.Message := [3]]}; commands := ∅ |}.

Definition sample_known : gmap string plugin :=
  {["echo" := echo_plugin; "other" := other_plugin; "greeter" := greeter_plugin]}.

(** The manager after the plugin [echo] has stored two keys. *)
Definition sample_data_world : World :=
  set_plugin_data
    {["echo" := {| general := Some {["a" := "1"; "b" := "2"]}; per_channel := ∅ |}]}
    PluginManager.init.

Definition sample_world : World :=
  set_loaded_plugins
    [("echo", echo_plugin); ("other", other_plugin); ("greeter", greeter_plugin)]
    PluginManager.init.

(** A [Load] event, which has neither client nor loop nor raw message
    (the fields are there and are not read), and a plugin that listens on
    [Load]. *)
Definition load_event : event :=
  {| type := Class.Load; client := sample_client;
     raw_message := {| args := [] |}; command_attrs := None |}.

Definition loader_plugin : plugin :=
  {| name := "loader";
     listeners := {[Class.Load := [4]; Class._DummyEvent := [4];
                    Class.object := [4]]};
     commands := ∅ |}.

(** A class derived from [Event] that is not a message (the two files
    define none; it stands for an event class of a transport), an event of
    it, a plugin that listens on that class, and a manager that has loaded
    the two plugins. *)
Definition Notice : Class.t := Class.Sub "Notice" Class.Event.

Definition notice_event : event :=
  {| type := Notice; client := sample_client;
     raw_message := {| args := [] |}; command_attrs := None |}.

Definition watcher_plugin : plugin :=
  {| name := "watcher"; listeners := {[Notice := [5]]}; commands := ∅ |}.

Definition watcher_world : World :=
  set_loaded_plugins [("watcher", watcher_plugin); ("loader", loader_plugin)]
    PluginManager.init.

(** ** The definitions at work *)

Example split_max_cmd : PyStr.split_max 1 " echo  foo bar " = ["echo"; "foo bar "].
Proof. reflexivity. Qed.

Example split_max_one : PyStr.split_max 1 "echo  " = ["echo"].
Proof. reflexivity. Qed.

Example split_all : PyStr.split " a b  c " = ["a"; "b"; "c"].
Proof. reflexivity. Qed.

Example strip_both : PyStr.strip "  a b  " = "a b".
Proof. reflexivity. Qed.

Example rpartition_mid : PyStr.rpartition_dot "a.b.c" = ("a.b", ".", "c").
Proof. reflexivity. Qed.

Example rpartition_lead : PyStr.rpartition_dot ".c" = ("", ".", "c").
Proof. reflexivity. Qed.

Example rpartition_none : PyStr.rpartition_dot "abc" = ("", "", "abc").
Proof. reflexivity. Qed.

Example mro_CommandMessage :
  Class.mro Class.CommandMessage
  = [Class.CommandMessage; Class.Message; Class.Event; Class.object].
Proof. reflexivity. Qed.

Example on_Message_greeter :
  Plugin.on Class.Message 3 (empty_plugin "greeter") = Ok greeter_plugin.
Proof. reflexivity. Qed.

Example on_str_TypeError :
  Plugin.on (Class.Sub "str" Class.object) 3 (empty_plugin "greeter")
  = Raise TypeError.
Proof. reflexivity. Qed.

Example on_Load_records :
  Plugin.on Class.Load 4 (empty_plugin "p")
  = Ok {| name := "p";
          listeners := {[Class.Load := [4]; Class._DummyEvent := [4];
                         Class.object := [4]]};
          commands := ∅ |}.
Proof. vm_compute. reflexivity. Qed.

Example on_Load_loader :
  Plugin.on Class.Load 4 (empty_plugin "loader") = Ok loader_plugin.
Proof. vm_compute. reflexivity. Qed.

Example on_Notice_watcher :
  Plugin.on Notice 5 (empty_plugin "watcher") = Ok watcher_plugin.
Proof. vm_compute. reflexivity. Qed.

Example fire_Load_raises :
  (PluginManager.fire load_event watcher_world).1 = Raise AttributeError
  ∧ tasks (PluginManager.fire load_event watcher_world).2 = [].
Proof. split; vm_compute; reflexivity. Qed.

Example load_sample :
  (PluginManager.load sample_known "echo";;
   PluginManager.load sample_known "other";;
   PluginManager.load sample_known "greeter";;
   PluginManager.load sample_known "echo") PluginManager.init
  = (Ok tt, sample_world).
Proof. reflexivity. Qed.

Example load_unknown :
  PluginManager.load sample_known "nope" PluginManager.init
  = (Raise KeyError, PluginManager.init).
Proof. reflexivity. Qed.

Example setitem_sample :
  let ev := wrapper (sample_message "#chan" "hi") echo_plugin in
  (PluginDataWrapper.setitem ev "a" "1";; PluginDataWrapper.setitem ev "b" "2")
    PluginManager.init
  = (Ok tt, sample_data_world).
Proof. vm_compute. reflexivity. Qed.

Example getitem_missing :
  PluginDataWrapper.getitem (wrapper (sample_message "#chan" "hi") echo_plugin) "c"
    sample_data_world
  = (Raise KeyError, sample_data_world).
Proof. reflexivity. Qed.

Example per_channel_again :
  let ev := wrapper (sample_message "#chan" "hi") echo_plugin in
  ((i ← PluginDataWrapper.per_channel ev "Counter";
    j ← PluginDataWrapper.per_channel ev "Counter";
    mret (inst_id i, inst_id j)) PluginManager.init).1
  = Ok (0, 0).
Proof. vm_compute. reflexivity. Qed.

(** The delivery of tests/plugins/echo_test.py: the message
    [dywypi: echo foo] is parsed as the command [echo] with the argument
    string [foo]; then [fire] raises at [event.source], and the command
    [echo] of the plugin [echo] is not run. *)
Example test_echo :
  let ev := sample_message "dywypi" "dywypi: echo foo" in
  PluginManager.parse_command ev sample_world
  = (Ok (Some ("", "echo", "foo")), sample_world)
  ∧ (PluginManager.fire ev sample_world).1 = Raise AttributeError
  ∧ tasks (PluginManager.fire ev sample_world).2
    = [task_of (wrapper ev greeter_plugin) 3].
Proof. repeat split; vm_compute; reflexivity. Qed.

(** ** [split]: the rounds are enough *)

Lemma lstrip_length (s : string) :
  String.length (PyStr.lstrip s) ≤ String.length s.
Proof.
  induction s as [|c s IH]; simpl; [done|].
  destruct (PyStr.isspace c); simpl; lia.
Qed.

Lemma lstrip_head (s t : string) (c : ascii) :
  PyStr.lstrip s = String c t → PyStr.isspace c = false.
Proof.
  induction s as [|d s IH]; simpl; [done|].
  destruct (PyStr.isspace d) eqn:Hd; [done|]. by intros [= <- _].
Qed.

Lemma span_word_length (t : string) :
  String.length (PyStr.span_word t).2 ≤ String.length t.
Proof.
  induction t as [|c t IH]; simpl; [done|].
  destruct (PyStr.isspace c); simpl; [done|].
  destruct (PyStr.span_word t) as [w r]. simpl in *. lia.
Qed.

Lemma span_word_shorter (t : string) (c : ascii) :
  PyStr.isspace c = false →
  String.length (PyStr.span_word (String c t)).2 ≤ String.length t.
Proof.
  intros Hc. simpl. rewrite Hc.
  pose proof (span_word_length t) as H.
  by destruct (PyStr.span_word t) as [w r].
Qed.

(** With more rounds than characters, the number of rounds does not matter:
    [split_ws] never stops for lack of rounds. *)
Lemma split_ws_fuel (fuel fuel' m : nat) (s : string) :
  String.length s < fuel → String.length s < fuel' →
  PyStr.split_ws fuel m s = PyStr.split_ws fuel' m s.
Proof.
  revert fuel' m s. induction fuel as [|fuel IH]; intros fuel' m s H1 H2; [lia|].
  destruct fuel' as [|fuel']; [lia|]. cbn [PyStr.split_ws].
  pose proof (lstrip_length s) as Hl.
  destruct (PyStr.lstrip s) as [|c t] eqn:Hs; [done|].
  destruct m as [|m]; [done|].
  pose proof (span_word_shorter t c (lstrip_head _ _ _ Hs)) as Hr.
  destruct (PyStr.span_word (String c t)) as [w r]. simpl in Hl, Hr.
  f_equal. apply IH; lia.
Qed.

(** ** Running the monad *)

Lemma bind_ok {A B : Type} (m : M A) (f : A → M B) (w w' : World) (a : A) :
  m w = (Ok a, w') → (m ≫= f) w = f a w'.
Proof. intros H. unfold mbind, M_bind. by rewrite H. Qed.

Lemma bind_raise {A B : Type} (m : M A) (f : A → M B) (w w' : World) (e : exn) :
  m w = (Raise e, w') → (m ≫= f) w = (Raise e, w').
Proof. intros H. unfold mbind, M_bind. by rewrite H. Qed.

Lemma scheduled_nil (w : World) : scheduled [] w w.
Proof. unfold scheduled. by rewrite app_nil_r. Qed.

Lemma scheduled_app (ts us : list Task) (w w' w'' : World) :
  scheduled ts w w' → scheduled us w' w'' → scheduled (ts ++ us) w w''.
Proof.
  intros (Hl & Ht & Hn & Hd) (Hl' & Ht' & Hn' & Hd').
  repeat split.
  - congruence.
  - by rewrite Ht', Ht, app_assoc.
  - congruence.
  - intros k. by rewrite Hd', Hd.
Qed.

Lemma async_run (c : nat) (ev : EventWrapper) (w : World) :
  ∃ w', async c ev (loop (client (wrapped ev))) w = (Ok (task_of ev c), w')
        ∧ scheduled [task_of ev c] w w'.
Proof. eexists. split; [reflexivity|]. by repeat split. Qed.

(** A loop whose rounds only create tasks creates the tasks of all rounds,
    in order. *)
Lemma for_extend_run {A : Type} (f : A → M (list Task)) (g : A → list Task)
    (l : list A) :
  (∀ x w, x ∈ l → ∃ w', f x w = (Ok (g x), w') ∧ scheduled (g x) w w') →
  ∀ w, ∃ w', for_extend f l w = (Ok (l ≫= g), w') ∧ scheduled (l ≫= g) w w'.
Proof.
  induction l as [|x l IH]; intros Hf w.
  - exists w. split; [reflexivity|apply scheduled_nil].
  - destruct (Hf x w) as (w1 & Hx & Hs1); [left|].
    destruct (IH (λ y v Hy, Hf y v (list_elem_of_further _ _ _ Hy)) w1)
      as (w2 & Hl & Hs2).
    exists w2. split.
    + simpl. rewrite (bind_ok _ _ _ _ _ Hx), (bind_ok _ _ _ _ _ Hl). reflexivity.
    + simpl. by eapply scheduled_app.
Qed.

Lemma wrap_event_run (ev : event) (p : plugin) (w : World) :
  ∃ w', PluginManager._wrap_event ev p w = (Ok (wrapper ev p), w')
        ∧ scheduled [] w w'.
Proof.
  eexists. split; [reflexivity|].
  repeat split; simpl; [by rewrite app_nil_r|].
  intros k. unfold data_of. simpl.
  destruct (decide (name p = k)) as [->|Hk].
  - rewrite lookup_insert_eq. reflexivity.
  - by rewrite lookup_insert_ne.
Qed.

Lemma event_loop_run (ev : event) (w : World) :
  has_event_attrs ev = true → event_loop ev w = (Ok (loop (client ev)), w).
Proof. intros H. unfold event_loop. by rewrite H. Qed.

Lemma event_loop_missing (ev : event) (w : World) :
  has_event_attrs ev = false → event_loop ev w = (Raise AttributeError, w).
Proof. intros H. unfold event_loop. by rewrite H. Qed.

Lemma has_event_attrs_Event (ev : event) :
  Class.Event ∈ Class.mro (type ev) → has_event_attrs ev = true.
Proof.
  intros H. unfold has_event_attrs, Class.issubclass.
  by rewrite (bool_decide_eq_true_2 _ H).
Qed.

Lemma has_event_attrs_command (ev : event) (c : CommandAttrs) :
  command_attrs ev = Some c → has_event_attrs ev = true.
Proof.
  intros H. unfold has_event_attrs.
  rewrite (bool_decide_eq_true_2 (is_Some (command_attrs ev))); [|by exists c].
  apply orb_true_r.
Qed.

Lemma scheduling_round (c : nat) (ev : EventWrapper) (w w1 : World) :
  has_event_attrs (wrapped ev) = true →
  async c ev (loop (client (wrapped ev))) w = (Ok (task_of ev c), w1) →
  (lp ← event_loop (wrapped ev); t ← async c ev lp; mret [t]) w
  = (Ok [task_of ev c], w1).
Proof.
  intros Hattrs Ha.
  rewrite (bind_ok _ _ _ _ _ (event_loop_run (wrapped ev) w Hattrs)).
  by rewrite (bind_ok _ _ _ _ _ Ha).
Qed.

Lemma Plugin_fire_run (p : plugin) (ev : EventWrapper) (w : World) :
  has_event_attrs (wrapped ev) = true →
  ∃ w', Plugin.fire p ev w = (Ok (listener_tasks p ev), w')
        ∧ scheduled (listener_tasks p ev) w w'.
Proof.
  intros Hattrs. unfold Plugin.fire, listener_tasks, listeners_for.
  set (l := default [] _). clearbody l. revert w.
  induction l as [|c l IH]; intros w.
  - exists w. split; [reflexivity|apply scheduled_nil].
  - destruct (async_run c ev w) as (w1 & Ha & Hs1).
    destruct (IH w1) as (w2 & Hl & Hs2).
    exists w2. split.
    + cbn [for_extend fmap list_fmap].
      rewrite (bind_ok _ _ _ _ _ (scheduling_round c ev w w1 Hattrs Ha)).
      rewrite (bind_ok _ _ _ _ _ Hl). reflexivity.
    + change (task_of ev <$> c :: l) with ([task_of ev c] ++ (task_of ev <$> l)).
      by eapply scheduled_app.
Qed.

Lemma Plugin_fire_no_loop (p : plugin) (ev : EventWrapper) (w : World) :
  has_event_attrs (wrapped ev) = false →
  Plugin.fire p ev w
  = (match listeners_for p (type (wrapped ev)) with
     | [] => Ok []
     | _ :: _ => Raise AttributeError
     end, w).
Proof.
  intros Hattrs. unfold Plugin.fire, listeners_for.
  destruct (default [] (listeners p !! type (wrapped ev))) as [|c l]; [done|].
  cbn [for_extend]. apply bind_raise, bind_raise.
  by apply event_loop_missing.
Qed.

Lemma bind_ok_eq {A B : Type} (m : M A) (f : A → M B) (w w' : World) (a : A)
    (r : result B * World) :
  m w = (Ok a, w') → f a w' = r → (m ≫= f) w = r.
Proof. intros Hm <-. by apply bind_ok. Qed.

Lemma fire_on_run (ev : event) (p : plugin) (w : World) :
  has_event_attrs ev = true →
  ∃ w', PluginManager._fire_on ev p w = (Ok (listener_tasks p (wrapper ev p)), w')
        ∧ scheduled (listener_tasks p (wrapper ev p)) w w'.
Proof.
  intros Hattrs.
  destruct (wrap_event_run ev p w) as (w1 & Hw & Hs1).
  destruct (Plugin_fire_run p (wrapper ev p) w1 Hattrs) as (w2 & Hf & Hs2).
  exists w2. split.
  - unfold PluginManager._fire_on. by rewrite (bind_ok _ _ _ _ _ Hw).
  - apply (scheduled_app [] _ _ _ _ Hs1 Hs2).
Qed.

(** The broadcast of an event that has a loop never raises: it creates the
    listener tasks of every loaded plugin, in the order of the plugins. *)
Lemma fire_broadcast_run (ev : event) (w : World) :
  has_event_attrs ev = true →
  ∃ w', PluginManager._fire ev w
          = (Ok (broadcast_tasks ev (dict_values (loaded_plugins w))), w')
        ∧ scheduled (broadcast_tasks ev (dict_values (loaded_plugins w))) w w'.
Proof.
  intros Hattrs. unfold PluginManager._fire.
  rewrite (bind_ok get_world _ w w w eq_refl).
  apply for_extend_run. intros p v _. by apply fire_on_run.
Qed.

(** ** Classes: the method resolution order is a chain *)

(** A class of the chain of [c] other than [c] has a shorter chain. *)
Lemma mro_shorter (s c : Class.t) :
  s ∈ Class.mro c → s = c ∨ length (Class.mro s) < length (Class.mro c).
Proof.
  induction c as [|n b IH]; simpl; intros H.
  - left. by apply list_elem_of_singleton in H.
  - apply elem_of_cons in H as [->|H]; [by left|].
    right. destruct (IH H) as [->|Hlt]; simpl; lia.
Qed.

(** The chain of [c] ends with the chain of each of its classes; what
    comes before is made of classes with a longer chain. *)
Lemma mro_split (s c : Class.t) :
  s ∈ Class.mro c →
  ∃ l, Class.mro c = l ++ Class.mro s
       ∧ ∀ x, x ∈ l → length (Class.mro s) < length (Class.mro x).
Proof.
  induction c as [|n b IH]; simpl; intros H.
  - apply list_elem_of_singleton in H as ->. exists []. split; [done|].
    intros x Hx. by apply elem_of_nil in Hx.
  - apply elem_of_cons in H as [->|H].
    + exists []. split; [done|]. intros x Hx. by apply elem_of_nil in Hx.
    + destruct (IH H) as (l & Hl & Hlong).
      exists (Class.Sub n b :: l). split; [by rewrite Hl|].
      intros x Hx. apply elem_of_cons in Hx as [->|Hx]; [|by apply Hlong].
      destruct (mro_shorter _ _ H) as [->|Hlt]; simpl; lia.
Qed.

Lemma mro_trans (a b c : Class.t) :
  a ∈ Class.mro b → b ∈ Class.mro c → a ∈ Class.mro c.
Proof.
  intros Hab Hbc. destruct (mro_split _ _ Hbc) as (l & -> & _).
  apply elem_of_app. by right.
Qed.

Lemma mro_tail_not_head (c : Class.t) : c ∉ tail (Class.mro c).
Proof.
  destruct c as [|n b]; simpl; [apply not_elem_of_nil|].
  intros H. destruct (mro_shorter _ _ H) as [Heq|Hlt].
  - apply (f_equal (λ x, length (Class.mro x))) in Heq. simpl in Heq. lia.
  - simpl in Hlt. lia.
Qed.

(** ** [Plugin.on]: where the handler is recorded *)

Lemma on_loop_not_in (f : nat) (l : list Class.t) (ls : gmap Class.t (list nat))
    (c : Class.t) :
  c ∉ l → Plugin.on_loop f l ls !! c = ls !! c.
Proof.
  revert ls. induction l as [|x l IH]; intros ls Hc; simpl; [done|].
  apply not_elem_of_cons in Hc as [Hx Hl].
  case_decide; [done|]. rewrite IH by done. by rewrite lookup_insert_ne.
Qed.

Lemma on_loop_app (f : nat) (l1 l2 : list Class.t) (ls : gmap Class.t (list nat)) :
  Class.Event ∉ l1 →
  Plugin.on_loop f (l1 ++ l2) ls = Plugin.on_loop f l2 (Plugin.on_loop f l1 ls).
Proof.
  revert ls. induction l1 as [|x l1 IH]; intros ls He; simpl; [done|].
  apply not_elem_of_cons in He as [Hx Hl].
  case_decide; [congruence|]. by apply IH.
Qed.

(** The loop stops at once on the chain of [Event] itself. *)
Lemma on_loop_Event (f : nat) (ls : gmap Class.t (list nat)) :
  Plugin.on_loop f (Class.mro Class.Event) ls = ls.
Proof. reflexivity. Qed.

(** Registering on [v] records the handler under every class [s] of the
    chain of [v] that lies strictly below [Event]. *)
Lemma on_loop_ancestor (f : nat) (s v : Class.t) (ls : gmap Class.t (list nat)) :
  s ∈ Class.mro v → Class.Event ∈ Class.mro s → s ≠ Class.Event →
  Plugin.on_loop f (Class.mro v) ls !! s = Some (default [] (ls !! s) ++ [f]).
Proof.
  intros Hsv Hes Hne.
  destruct (mro_split _ _ Hsv) as (l & -> & Hlong).
  assert (Hlt : length (Class.mro Class.Event) < length (Class.mro s)).
  { destruct (mro_shorter _ _ Hes) as [Heq|Hlt]; [congruence|done]. }
  rewrite on_loop_app.
  2:{ intros Hin. apply Hlong in Hin. lia. }
  assert (Hsl : s ∉ l).
  { intros Hin. apply Hlong in Hin. lia. }
  pose proof (mro_tail_not_head s) as Htail.
  destruct s as [|n b]; [simpl in Hlt; lia|].
  cbn [Class.mro Plugin.on_loop tail] in *.
  case_decide; [congruence|].
  rewrite on_loop_not_in by done.
  rewrite lookup_insert_eq. by rewrite on_loop_not_in.
Qed.

(** Registering on [s] records nothing under a proper subclass [v]. *)
Lemma on_loop_descendant (f : nat) (s v : Class.t) (ls : gmap Class.t (list nat)) :
  s ∈ Class.mro v → s ≠ v →
  Plugin.on_loop f (Class.mro s) ls !! v = ls !! v.
Proof.
  intros Hsv Hne. apply on_loop_not_in. intros Hvs.
  destruct (mro_shorter _ _ Hsv) as [?|H1]; [done|].
  destruct (mro_shorter _ _ Hvs) as [?|H2]; [done|]. lia.
Qed.

Lemma on_ok (c : Class.t) (h : nat) (p : plugin) :
  Class.Event ∈ Class.mro c →
  Plugin.on c h p
  = Ok {| name := name p;
          listeners := Plugin.on_loop h (Class.mro c) (listeners p);
          commands := commands p |}.
Proof.
  intros Hc. unfold Plugin.on, Class.issubclass.
  by rewrite (bool_decide_eq_true_2 _ Hc).
Qed.

(** C1, as the code has it: the law holds in the opposite direction.  For
    classes [s] and [v] below [Event] with [v] a proper subclass of [s], a
    handler registered on the subclass [v] is scheduled (once more than
    before, after the handlers already there) when an event whose exact class
    is the superclass [s] is fired, and registering a handler on the
    superclass [s] changes nothing in what is scheduled for an event whose
    exact class is [v]. *)
Theorem on_reaches_ancestors_only (s v : Class.t) (h : nat) (p : plugin) :
  s ∈ Class.mro v → s ≠ v → Class.Event ∈ Class.mro s → s ≠ Class.Event →
  ∃ pv ps,
    Plugin.on v h p = Ok pv ∧ Plugin.on s h p = Ok ps
    ∧ (∀ ev w, type (wrapped ev) = s →
         ∃ w', Plugin.fire pv ev w
                 = (Ok (listener_tasks p ev ++ [task_of ev h]), w')
               ∧ scheduled (listener_tasks p ev ++ [task_of ev h]) w w')
    ∧ (∀ ev w, type (wrapped ev) = v → Plugin.fire ps ev w = Plugin.fire p ev w).
Proof.
  intros Hsv Hne Hes HsE.
  eexists _, _. split; [apply on_ok; by eapply mro_trans|].
  split; [by apply on_ok|]. split.
  - intros ev w Hty.
    assert (Hattrs : has_event_attrs (wrapped ev) = true).
    { apply has_event_attrs_Event. by rewrite Hty. }
    destruct (Plugin_fire_run
                {| name := name p;
                   listeners := Plugin.on_loop h (Class.mro v) (listeners p);
                   commands := commands p |} ev w Hattrs) as (w' & Hrun & Hs).
    assert (Heq : listener_tasks
                    {| name := name p;
                       listeners := Plugin.on_loop h (Class.mro v) (listeners p);
                       commands := commands p |} ev
                  = listener_tasks p ev ++ [task_of ev h]).
    { unfold listener_tasks, listeners_for. simpl. rewrite Hty.
      rewrite on_loop_ancestor by done. simpl. by rewrite fmap_app. }
    rewrite Heq in Hrun, Hs. by exists w'.
  - intros ev w Hty. unfold Plugin.fire. simpl. rewrite Hty.
    by rewrite on_loop_descendant.
Qed.

Lemma on_reaches_ancestors_only_witness :
  ∃ pv ps,
    Plugin.on Class.CommandMessage 1 (empty_plugin "p") = Ok pv
    ∧ Plugin.on Class.Message 1 (empty_plugin "p") = Ok ps
    ∧ (∀ ev w, type (wrapped ev) = Class.Message →
         ∃ w', Plugin.fire pv ev w
                 = (Ok (listener_tasks (empty_plugin "p") ev ++ [task_of ev 1]), w')
               ∧ scheduled (listener_tasks (empty_plugin "p") ev ++ [task_of ev 1])
                   w w')
    ∧ (∀ ev w, type (wrapped ev) = Class.CommandMessage →
         Plugin.fire ps ev w = Plugin.fire (empty_plugin "p") ev w).
Proof.
  apply (on_reaches_ancestors_only Class.Message Class.CommandMessage 1
           (empty_plugin "p")).
  - right. left.
  - discriminate.
  - right. left.
  - discriminate.
Defined.

(** C1 as stated fails on [Message] and its subclass [CommandMessage]: the
    handler registered on [Message] is not scheduled for a [CommandMessage]
    event, and the handler registered on [CommandMessage] is scheduled for a
    plain [Message] event. *)
Lemma ancestor_propagation_counterexample :
  let m := sample_message "#chan" "hi" in
  let c := command_object m "echo" "hi" in
  ∃ ps pv,
    Plugin.on Class.Message 1 (empty_plugin "p") = Ok ps
    ∧ Plugin.on Class.CommandMessage 1 (empty_plugin "p") = Ok pv
    ∧ Plugin.fire ps (wrapper c ps) PluginManager.init
      = (Ok [], PluginManager.init)
    ∧ (Plugin.fire pv (wrapper m pv) PluginManager.init).1
      = Ok [task_of (wrapper m pv) 1].
Proof.
  eexists _, _. split; [reflexivity|]. split; [reflexivity|].
  split; vm_compute; reflexivity.
Qed.

(** C10: registering on the root class [Event] passes the type check and
    leaves the plugin as it was: the handler is recorded under no class, any
    event fires exactly what it fired before, and on a plugin without other
    listeners no event of any class creates a task. *)
Theorem on_Event_records_nothing (h : nat) (p : plugin) :
  Plugin.on Class.Event h p = Ok p
  ∧ (∀ p', Plugin.on Class.Event h p = Ok p' →
       listeners p' = listeners p
       ∧ (∀ ev w, Plugin.fire p' ev w = Plugin.fire p ev w)
       ∧ (∀ ev, times h (listener_tasks p' ev) = times h (listener_tasks p ev))
       ∧ (listeners p = ∅ → ∀ ev w, Plugin.fire p' ev w = (Ok [], w))).
Proof.
  assert (Hon : Plugin.on Class.Event h p = Ok p).
  { rewrite on_ok by left. rewrite on_loop_Event. by destruct p. }
  split; [done|]. intros p' Hp'. rewrite Hon in Hp'. injection Hp' as <-.
  repeat split; try done.
  intros Hempty ev w. unfold Plugin.fire. rewrite Hempty, lookup_empty.
  reflexivity.
Qed.

(** ** Strings *)

Lemma startswith_app (p s : string) : PyStr.startswith (p +:+ s) p = true.
Proof. induction p as [|a p IH]; simpl; [done|]. by rewrite decide_True. Qed.

Lemma startswith_refl (s : string) : PyStr.startswith s s = true.
Proof. induction s as [|a s IH]; simpl; [done|]. by rewrite decide_True. Qed.

Lemma index_length (s : string) : PyStr.index s (String.length s) = None.
Proof. induction s as [|a s IH]; simpl; done. Qed.

Lemma index_app_length (p s : string) (c : ascii) :
  PyStr.index (p +:+ String c s) (String.length p) = Some c.
Proof. induction p as [|a p IH]; simpl; done. Qed.

Lemma slice_from_app (p s : string) (c : ascii) :
  PyStr.slice_from (p +:+ String c s) (String.length p + 1) = s.
Proof. induction p as [|a p IH]; simpl; done. Qed.

(** ** Computations that leave the world alone *)

Lemma pure_ret {A : Type} (a : A) : pure (mret a).
Proof. by exists (Ok a). Qed.

Lemma pure_raise {A : Type} (e : exn) : pure (raise e : M A).
Proof. by exists (Raise e). Qed.

Lemma pure_bind {A B : Type} (m : M A) (f : A → M B) :
  pure m → (∀ a, pure (f a)) → pure (m ≫= f).
Proof.
  intros [r Hr] Hf. destruct r as [a|e].
  - destruct (Hf a) as [r' Hr']. exists r'. intros w.
    by rewrite (bind_ok _ _ _ _ _ (Hr w)).
  - exists (Raise e). intros w. by rewrite (bind_raise _ _ _ _ _ (Hr w)).
Qed.

Lemma arg_pure (i : nat) (ev : event) : pure (Message.arg i ev).
Proof.
  unfold Message.arg. destruct (Class.issubclass _ _); [|apply pure_raise].
  destruct (_ !! i); [apply pure_ret|apply pure_raise].
Qed.

Lemma is_command_pure (message n : string) :
  pure (PluginManager.is_command message n).
Proof.
  unfold PluginManager.is_command. destruct (PyStr.startswith _ _); [|apply pure_ret].
  destruct (PyStr.index _ _); [apply pure_ret|apply pure_raise].
Qed.

Lemma parse_pure (ev : event) : pure (PluginManager.parse_command ev).
Proof.
  unfold PluginManager.parse_command.
  apply pure_bind; [apply arg_pure|intros is_public].
  apply pure_bind; [apply arg_pure|intros text].
  apply pure_bind; [apply is_command_pure|intros is_cmd].
  destruct (_ || _); [|apply pure_ret].
  destruct (PluginManager.split_command _) as [cn a].
  destruct (PyStr.rpartition_dot cn) as [[pn sep] cn'].
  apply pure_ret.
Qed.

Lemma arg_run (i : nat) (ev : event) (a : string) (w : World) :
  Class.Message ∈ Class.mro (type ev) → args (raw_message ev) !! i = Some a →
  Message.arg i ev w = (Ok a, w).
Proof.
  intros Hm Ha. unfold Message.arg, Class.issubclass.
  rewrite (bool_decide_eq_true_2 _ Hm), Ha. reflexivity.
Qed.

Lemma has_event_attrs_Message (ev : event) :
  Class.Message ∈ Class.mro (type ev) → has_event_attrs ev = true.
Proof.
  intros Hm. apply has_event_attrs_Event.
  apply (mro_trans _ Class.Message); [right; left|done].
Qed.

(** C9: a message whose text is the nickname of the bot and nothing else
    makes [fire] raise [IndexError], out of the test for an address; the
    listener tasks of the first broadcast have been created by then. *)
Theorem fire_bare_nick_raises (ev : event) (w : World) (chan : string)
    (rest : list string) :
  Class.Message ∈ Class.mro (type ev) →
  args (raw_message ev) = chan :: nick (client ev) :: rest →
  PluginManager.is_command (nick (client ev)) (nick (client ev)) w
    = (Raise IndexError, w)
  ∧ ∃ w', PluginManager._fire ev w
            = (Ok (broadcast_tasks ev (dict_values (loaded_plugins w))), w')
          ∧ scheduled (broadcast_tasks ev (dict_values (loaded_plugins w))) w w'
          ∧ PluginManager.fire ev w = (Raise IndexError, w').
Proof.
  intros Hm Hargs.
  assert (Hic : ∀ v, PluginManager.is_command (nick (client ev)) (nick (client ev)) v
                     = (Raise IndexError, v)).
  { intros v. unfold PluginManager.is_command.
    by rewrite startswith_refl, index_length. }
  split; [apply Hic|].
  destruct (fire_broadcast_run ev w (has_event_attrs_Message ev Hm))
    as (w' & Hf & Hs).
  exists w'. split; [done|]. split; [done|].
  unfold PluginManager.fire. rewrite (bind_ok _ _ _ _ _ Hf).
  unfold Class.issubclass. rewrite (bool_decide_eq_true_2 _ Hm).
  apply bind_raise.
  unfold PluginManager.parse_command, Message.channel, Message.message.
  rewrite (bind_ok _ _ _ _ _ (arg_run 0 ev chan w' Hm ltac:(by rewrite Hargs))).
  rewrite (bind_ok _ _ _ _ _
             (arg_run 1 ev (nick (client ev)) w' Hm ltac:(by rewrite Hargs))).
  apply bind_raise, Hic.
Qed.

Lemma fire_bare_nick_raises_witness :
  let ev := sample_message "#chan" "dywypi" in
  let w := PluginManager.init in
  PluginManager.is_command (nick (client ev)) (nick (client ev)) w
    = (Raise IndexError, w)
  ∧ ∃ w', PluginManager._fire ev w
            = (Ok (broadcast_tasks ev (dict_values (loaded_plugins w))), w')
          ∧ scheduled (broadcast_tasks ev (dict_values (loaded_plugins w))) w w'
          ∧ PluginManager.fire ev w = (Raise IndexError, w').
Proof.
  apply (fire_bare_nick_raises (sample_message "#chan" "dywypi")
           PluginManager.init "#chan" []).
  - left.
  - reflexivity.
Defined.

(** ** Commands *)

Lemma fire_command_run (p : plugin) (ev : EventWrapper) (g : bool)
    (c : CommandAttrs) (w : World) :
  command_attrs (wrapped ev) = Some c →
  ∃ w', Plugin.fire_command p ev g w = (Ok (command_tasks p ev g), w')
        ∧ scheduled (command_tasks p ev g) w w'.
Proof.
  intros Hc. unfold Plugin.fire_command, command_tasks. rewrite Hc.
  destruct (commands p !! command_name c) as [cmd|].
  2:{ exists w. split; [reflexivity|apply scheduled_nil]. }
  destruct (is_global cmd || negb g).
  2:{ exists w. split; [reflexivity|apply scheduled_nil]. }
  destruct (async_run (coro cmd) ev w) as (w' & Ha & Hs).
  exists w'. split; [|done].
  apply scheduling_round; [by apply (has_event_attrs_command _ c)|done].
Qed.

Lemma fire_global_command_run (cev : event) (c : CommandAttrs) (w : World) :
  command_attrs cev = Some c →
  ∃ w', PluginManager._fire_global_command cev w
          = (Ok (global_command_tasks cev (dict_values (loaded_plugins w))), w')
        ∧ scheduled (global_command_tasks cev (dict_values (loaded_plugins w))) w w'.
Proof.
  intros Hc. unfold PluginManager._fire_global_command.
  rewrite (bind_ok get_world _ w w w eq_refl).
  apply for_extend_run. intros p v _.
  destruct (wrap_event_run cev p v) as (v1 & Hw & Hs1).
  destruct (fire_command_run p (wrapper cev p) true c v1 Hc) as (v2 & Hf & Hs2).
  exists v2. split.
  - by rewrite (bind_ok _ _ _ _ _ Hw).
  - apply (scheduled_app [] _ _ _ _ Hs1 Hs2).
Qed.



(** C5: a command registered with [is_global=False] is skipped by
    [fire_command] in a global invocation and runs in an invocation that is
    not global; a command registered with [is_global=True] runs in both. *)
Theorem local_only_command (p : plugin) (ev : EventWrapper) (c : CommandAttrs)
    (f : nat) (w : World) :
  command_attrs (wrapped ev) = Some c →
  Plugin.fire_command (Plugin.command (command_name c) false f p) ev true w
    = (Ok [], w)
  ∧ (∃ w', Plugin.fire_command (Plugin.command (command_name c) false f p) ev false w
             = (Ok [task_of ev f], w')
           ∧ scheduled [task_of ev f] w w')
  ∧ (∀ g, ∃ w', Plugin.fire_command (Plugin.command (command_name c) true f p) ev g w
                  = (Ok [task_of ev f], w')
                ∧ scheduled [task_of ev f] w w').
Proof.
  intros Hc. split; [|split].
  - unfold Plugin.fire_command, Plugin.command. rewrite Hc. simpl.
    by rewrite lookup_insert_eq.
  - destruct (fire_command_run (Plugin.command (command_name c) false f p)
                ev false c w Hc) as (w' & Hf & Hs).
    exists w'. revert Hf Hs. unfold command_tasks, Plugin.command. rewrite Hc.
    simpl. by rewrite lookup_insert_eq.
  - intros g.
    destruct (fire_command_run (Plugin.command (command_name c) true f p)
                ev g c w Hc) as (w' & Hf & Hs).
    exists w'. revert Hf Hs. unfold command_tasks, Plugin.command. rewrite Hc.
    simpl. by rewrite lookup_insert_eq.
Qed.

Lemma local_only_command_witness :
  let ev := wrapper (command_object (sample_message "" "echo foo") "echo" "foo")
              (empty_plugin "echo") in
  let w := PluginManager.init in
  Plugin.fire_command (Plugin.command "echo" false 7 (empty_plugin "echo")) ev true w
    = (Ok [], w)
  ∧ (∃ w', Plugin.fire_command (Plugin.command "echo" false 7 (empty_plugin "echo"))
             ev false w
             = (Ok [task_of ev 7], w')
           ∧ scheduled [task_of ev 7] w w')
  ∧ (∀ g, ∃ w', Plugin.fire_command (Plugin.command "echo" true 7 (empty_plugin "echo"))
                  ev g w
                  = (Ok [task_of ev 7], w')
                ∧ scheduled [task_of ev 7] w w').
Proof.
  apply (local_only_command (empty_plugin "echo")
           (wrapper (command_object (sample_message "" "echo foo") "echo" "foo")
              (empty_plugin "echo"))
           {| command_name := "echo"; argstr := "foo"; command_args := ["foo"] |}
           7 PluginManager.init).
  reflexivity.
Defined.

(** ** The command branch of [PluginManager.fire] *)

Lemma parse_run (ev : event) (w v : World)
    (r : result (option (string * string * string))) :
  PluginManager.parse_command ev w = (r, w) →
  PluginManager.parse_command ev v = (r, v).
Proof.
  destruct (parse_pure ev) as [r' Hr]. rewrite !Hr. congruence.
Qed.

(** A message that is taken as a command gets no further than
    [event.source]: [fire] raises [AttributeError] after the first
    broadcast, and neither command route is entered. *)
Lemma fire_command_branch (ev : event) (pn cn a : string) (w : World) :
  Class.Message ∈ Class.mro (type ev) →
  PluginManager.parse_command ev w = (Ok (Some (pn, cn, a)), w) →
  ∃ w0,
    PluginManager._fire ev w
      = (Ok (broadcast_tasks ev (dict_values (loaded_plugins w))), w0)
    ∧ scheduled (broadcast_tasks ev (dict_values (loaded_plugins w))) w w0
    ∧ PluginManager.fire ev w = (Raise AttributeError, w0).
Proof.
  intros Hm Hc.
  destruct (fire_broadcast_run ev w (has_event_attrs_Message ev Hm))
    as (w0 & Hf & Hs).
  exists w0. split; [done|]. split; [done|].
  unfold PluginManager.fire. rewrite (bind_ok _ _ _ _ _ Hf).
  unfold Class.issubclass. rewrite (bool_decide_eq_true_2 _ Hm).
  by rewrite (bind_ok _ _ _ _ _ (parse_run ev w w0 _ Hc)).
Qed.





(** ** The last dot of the command word *)



Lemma is_command_run (text n : string) (b : bool) (w v : World) :
  PluginManager.is_command text n w = (Ok b, w) →
  PluginManager.is_command text n v = (Ok b, v).
Proof.
  destruct (is_command_pure text n) as [r Hr]. rewrite !Hr. congruence.
Qed.

(** The parse of a message that is addressed or not public, from its
    command word. *)
Lemma parse_command_word (ev : event) (w : World) (chan text word a : string)
    (is_cmd : bool) :
  Class.Message ∈ Class.mro (type ev) →
  args (raw_message ev) !! 0 = Some chan →
  args (raw_message ev) !! 1 = Some text →
  PluginManager.is_command text (nick (client ev)) w = (Ok is_cmd, w) →
  is_cmd || negb (PyStr.truthy chan) = true →
  PluginManager.split_command
    (if is_cmd then PyStr.slice_from text (String.length (nick (client ev)) + 1)
     else text) = (word, a) →
  PluginManager.parse_command ev w
  = (Ok (Some ((PyStr.rpartition_dot word).1.1, (PyStr.rpartition_dot word).2, a)),
     w).
Proof.
  intros Hm H0 H1 Hic Hor Hsplit.
  unfold PluginManager.parse_command, Message.channel, Message.message.
  rewrite (bind_ok _ _ _ _ _ (arg_run 0 ev chan w Hm H0)).
  rewrite (bind_ok _ _ _ _ _ (arg_run 1 ev text w Hm H1)).
  rewrite (bind_ok _ _ _ _ _ Hic).
  rewrite Hor, Hsplit.
  by destruct (PyStr.rpartition_dot word) as [[pn sep] cn].
Qed.




(** ** Plain and regular messages *)

(** An event with a loop that is not a [Message] is broadcast once and
    that is all. *)
Lemma fire_other_event (ev : event) (w : World) :
  has_event_attrs ev = true →
  Class.Message ∉ Class.mro (type ev) →
  ∃ w', PluginManager.fire ev w
          = (Ok (broadcast_tasks ev (dict_values (loaded_plugins w))), w')
        ∧ scheduled (broadcast_tasks ev (dict_values (loaded_plugins w))) w w'.
Proof.
  intros Hattrs Hm. destruct (fire_broadcast_run ev w Hattrs) as (w' & Hf & Hs).
  exists w'. split; [|done].
  unfold PluginManager.fire. rewrite (bind_ok _ _ _ _ _ Hf).
  unfold Class.issubclass. by rewrite (bool_decide_eq_false_2 _ Hm).
Qed.

(** A public message that is not addressed to the bot is broadcast a second
    time: [fire] returns the listener tasks of the loaded plugins twice. *)
Lemma fire_public_unaddressed (ev : event) (w : World) (chan text : string) :
  Class.Message ∈ Class.mro (type ev) →
  args (raw_message ev) !! 0 = Some chan →
  args (raw_message ev) !! 1 = Some text →
  PluginManager.is_command text (nick (client ev)) w = (Ok false, w) →
  PyStr.truthy chan = true →
  ∃ w', PluginManager.fire ev w
          = (Ok (broadcast_tasks ev (dict_values (loaded_plugins w))
                 ++ broadcast_tasks ev (dict_values (loaded_plugins w))), w')
        ∧ scheduled (broadcast_tasks ev (dict_values (loaded_plugins w))
                     ++ broadcast_tasks ev (dict_values (loaded_plugins w))) w w'.
Proof.
  intros Hm H0 H1 Hic Hpub.
  pose proof (has_event_attrs_Message ev Hm) as Hattrs.
  destruct (fire_broadcast_run ev w Hattrs) as (w0 & Hf & Hs).
  destruct (fire_broadcast_run ev w0 Hattrs) as (w1 & Hf1 & Hs1).
  assert (Hl : loaded_plugins w0 = loaded_plugins w) by apply Hs.
  rewrite Hl in Hf1, Hs1.
  exists w1. split; [|by eapply scheduled_app].
  unfold PluginManager.fire. rewrite (bind_ok _ _ _ _ _ Hf).
  unfold Class.issubclass. rewrite (bool_decide_eq_true_2 _ Hm).
  assert (Hcl : PluginManager.parse_command ev w0 = (Ok None, w0)).
  { unfold PluginManager.parse_command, Message.channel, Message.message.
    rewrite (bind_ok _ _ _ _ _ (arg_run 0 ev chan w0 Hm H0)).
    rewrite (bind_ok _ _ _ _ _ (arg_run 1 ev text w0 Hm H1)).
    rewrite (bind_ok _ _ _ _ _ (is_command_run _ _ _ w w0 Hic)).
    by rewrite Hpub. }
  rewrite (bind_ok _ _ _ _ _ Hcl). by rewrite (bind_ok _ _ _ _ _ Hf1).
Qed.

(** C2 at its failing input: the handler 3 is registered once, on
    [Message], in a loaded plugin; one delivery of the public message
    [hello], which is not addressed to the bot, creates two tasks for it. *)
Theorem public_message_fired_twice :
  let ev := sample_message "#chan" "hello" in
  let t := task_of (wrapper ev greeter_plugin) 3 in
  Plugin.on Class.Message 3 (empty_plugin "greeter") = Ok greeter_plugin
  ∧ (PluginManager.fire ev sample_world).1 = Ok [t; t]
  ∧ tasks (PluginManager.fire ev sample_world).2 = [t; t]
  ∧ times 3 (tasks (PluginManager.fire ev sample_world).2) = 2.
Proof. repeat split; vm_compute; reflexivity. Qed.

(** ** Addressing *)

Lemma is_command_echo_foo (n : string) (w : World) :
  n ≠ "echo" → n ≠ "echo foo" →
  PluginManager.is_command "echo foo" n w = (Ok false, w).
Proof.
  unfold PluginManager.is_command. intros H1 H2.
  do 9 (try (destruct n as [|? n]; simpl;
             [done|try (case_decide; [subst|done])])).
  reflexivity.
Qed.

Lemma is_command_addressed (n rest : string) (w : World) :
  PluginManager.is_command (n +:+ String ":" rest) n w = (Ok true, w).
Proof.
  unfold PluginManager.is_command.
  by rewrite startswith_app, index_app_length.
Qed.

(** C3, as the code has it: unless the nickname of the bot is [echo] or
    [echo foo], the private message [echo foo] and the public message made
    of the nickname, a colon and [ echo foo] are both taken as commands, and
    the parse of [fire] gives both an empty [plugin_name],
    [command_name = "echo"] and [argstr = "foo"]. *)
Theorem addressing_same_parse (priv pub : event) (chan : string) (w : World) :
  nick (client priv) ≠ "echo" → nick (client priv) ≠ "echo foo" →
  Class.Message ∈ Class.mro (type priv) →
  Class.Message ∈ Class.mro (type pub) →
  args (raw_message priv) = [""; "echo foo"] →
  PyStr.truthy chan = true →
  args (raw_message pub) = [chan; nick (client pub) +:+ ": echo foo"] →
  PluginManager.parse_command priv w = (Ok (Some ("", "echo", "foo")), w)
  ∧ PluginManager.parse_command pub w = (Ok (Some ("", "echo", "foo")), w).
Proof.
  intros Hn1 Hn2 Hm Hm' Ha Hc Ha'. split.
  - apply (parse_command_word priv w "" "echo foo" "echo" "foo" false); try done.
    + by rewrite Ha.
    + by rewrite Ha.
    + by apply is_command_echo_foo.
  - apply (parse_command_word pub w chan (nick (client pub) +:+ ": echo foo")
             "echo" "foo" true); try done.
    + by rewrite Ha'.
    + by rewrite Ha'.
    + apply is_command_addressed.
    + by rewrite slice_from_app.
Qed.

Lemma addressing_same_parse_witness :
  let priv := sample_message "" "echo foo" in
  let pub := sample_message "#chan" "dywypi: echo foo" in
  let w := sample_world in
  PluginManager.parse_command priv w = (Ok (Some ("", "echo", "foo")), w)
  ∧ PluginManager.parse_command pub w = (Ok (Some ("", "echo", "foo")), w).
Proof.
  apply (addressing_same_parse (sample_message "" "echo foo")
           (sample_message "#chan" "dywypi: echo foo") "#chan" sample_world).
  - discriminate.
  - discriminate.
  - left.
  - left.
  - reflexivity.
  - reflexivity.
  - reflexivity.
Defined.

(** C3 as stated fails for a bot whose nickname is [echo]: the private
    message [echo foo] starts with the nickname and a space, so the nickname
    is cut off and the command is [foo] without arguments. *)
Lemma addressing_counterexample :
  let priv :=
    {| type := Class.Message; client := {| nick := "echo"; loop := 0 |};
       raw_message := {| args := [""; "echo foo"] |}; command_attrs := None |} in
  PluginManager.parse_command priv PluginManager.init
  = (Ok (Some ("", "foo", "")), PluginManager.init).
Proof. reflexivity. Qed.

(** ** Plugin data *)

(** C8: [del data[k]] on a plugin whose general mapping is there deletes
    the attribute that holds the mapping; afterwards reading any key through
    a view of that plugin raises [AttributeError], whatever was bound. *)
Theorem delitem_drops_general (ev : EventWrapper) (k : string) (w : World)
    (g : gmap string string) :
  general (data_of w (data ev)) = Some g →
  ∃ w', PluginDataWrapper.delitem ev k w = (Ok tt, w')
        ∧ general (data_of w' (data ev)) = None
        ∧ ∀ ev' k', data ev' = data ev →
            PluginDataWrapper.getitem ev' k' w' = (Raise AttributeError, w').
Proof.
  intros Hg. eexists. split.
  - unfold PluginDataWrapper.delitem.
    rewrite (bind_ok get_world _ w w w eq_refl). rewrite Hg. reflexivity.
  - assert (Hnone : ∀ d, d = data ev →
              general (data_of
                (set_plugin_data
                   (<[data ev := {| general := None;
                                    per_channel := per_channel (data_of w (data ev)) |}]>
                      (plugin_data w)) w) d) = None).
    { intros d ->. unfold data_of. simpl. by rewrite lookup_insert_eq. }
    split; [by apply Hnone|].
    intros ev' k' Hd. unfold PluginDataWrapper.getitem.
    rewrite (bind_ok get_world _ _ _ _ eq_refl). by rewrite (Hnone _ Hd).
Qed.

Lemma delitem_drops_general_witness :
  let ev := wrapper (sample_message "#chan" "hi") echo_plugin in
  ∃ w', PluginDataWrapper.delitem ev "a" sample_data_world = (Ok tt, w')
        ∧ general (data_of w' (data ev)) = None
        ∧ ∀ ev' k', data ev' = data ev →
            PluginDataWrapper.getitem ev' k' w' = (Raise AttributeError, w').
Proof.
  apply (delitem_drops_general (wrapper (sample_message "#chan" "hi") echo_plugin)
           "a" sample_data_world {["a" := "1"; "b" := "2"]}).
  reflexivity.
Defined.

(** ** Computations that only create tasks *)

Lemma quiet_pure {A : Type} (m : M A) : pure m → quiet m.
Proof. intros [r Hr] w. exists []. rewrite Hr. apply scheduled_nil. Qed.

Lemma quiet_run {A : Type} (m : M A) :
  (∀ w, ∃ a ts w', m w = (Ok a, w') ∧ scheduled ts w w') → quiet m.
Proof. intros H w. destruct (H w) as (a & ts & w' & -> & Hs). by exists ts. Qed.

Lemma quiet_bind {A B : Type} (m : M A) (f : A → M B) :
  quiet m → (∀ a, quiet (f a)) → quiet (m ≫= f).
Proof.
  intros Hm Hf w. destruct (Hm w) as (ts & Hs).
  unfold mbind, M_bind. destruct (m w) as [[a|e] w1]; simpl in Hs.
  - destruct (Hf a w1) as (us & Hu). exists (ts ++ us). by eapply scheduled_app.
  - by exists ts.
Qed.

Lemma quiet_for_extend {A B : Type} (f : A → M (list B)) (l : list A) :
  (∀ x, quiet (f x)) → quiet (for_extend f l).
Proof.
  intros Hf. induction l as [|x l IH]; simpl.
  - apply quiet_pure, pure_ret.
  - apply quiet_bind; [apply Hf|intros ys].
    apply quiet_bind; [apply IH|intros zs]. apply quiet_pure, pure_ret.
Qed.

Lemma quiet_get_world : quiet get_world.
Proof. intros w. exists []. apply scheduled_nil. Qed.

Lemma quiet_wrap_event (ev : event) (p : plugin) :
  quiet (PluginManager._wrap_event ev p).
Proof.
  apply quiet_run. intros w. destruct (wrap_event_run ev p w) as (w' & H & Hs).
  by eexists _, _, _.
Qed.

Lemma event_loop_pure (ev : event) : pure (event_loop ev).
Proof.
  unfold event_loop. destruct (has_event_attrs ev); [apply pure_ret|apply pure_raise].
Qed.

Lemma quiet_async (c : nat) (ev : EventWrapper) (lp : nat) : quiet (async c ev lp).
Proof. intros w. eexists [_]. by repeat split. Qed.

Lemma quiet_scheduling_round (c : nat) (ev : EventWrapper) :
  quiet (lp ← event_loop (wrapped ev); t ← async c ev lp; mret [t]).
Proof.
  apply quiet_bind; [apply quiet_pure, event_loop_pure|intros lp].
  apply quiet_bind; [apply quiet_async|intros t]. apply quiet_pure, pure_ret.
Qed.

Lemma quiet_Plugin_fire (p : plugin) (ev : EventWrapper) : quiet (Plugin.fire p ev).
Proof. apply quiet_for_extend. intros c. apply quiet_scheduling_round. Qed.

Lemma quiet_fire_command (p : plugin) (ev : EventWrapper) (g : bool) :
  quiet (Plugin.fire_command p ev g).
Proof.
  destruct (command_attrs (wrapped ev)) as [c|] eqn:Hc.
  - apply quiet_run. intros w.
    destruct (fire_command_run p ev g c w Hc) as (w' & H & Hs).
    by eexists _, _, _.
  - unfold Plugin.fire_command. rewrite Hc. apply quiet_pure, pure_raise.
Qed.

Lemma quiet_fire_broadcast (ev : event) : quiet (PluginManager._fire ev).
Proof.
  apply quiet_bind; [apply quiet_get_world|intros w].
  apply quiet_for_extend. intros p.
  apply quiet_bind; [apply quiet_wrap_event|intros wrapped]. apply quiet_Plugin_fire.
Qed.

Lemma quiet_fire_global_command (cev : event) :
  quiet (PluginManager._fire_global_command cev).
Proof.
  apply quiet_bind; [apply quiet_get_world|intros w].
  apply quiet_for_extend. intros p.
  apply quiet_bind; [apply quiet_wrap_event|intros ev]. apply quiet_fire_command.
Qed.

Lemma quiet_fire_plugin_command (pn : string) (cev : event) :
  quiet (PluginManager._fire_plugin_command pn cev).
Proof.
  apply quiet_bind; [apply quiet_get_world|intros w].
  destruct (dict_get pn (loaded_plugins w)) as [p|]; [|apply quiet_pure, pure_raise].
  apply quiet_bind; [apply quiet_wrap_event|intros ev]. apply quiet_fire_command.
Qed.

(** Whatever [fire] does and whether it returns or raises, it creates
    tasks and changes nothing else. *)
Lemma quiet_fire (ev : event) : quiet (PluginManager.fire ev).
Proof.
  apply quiet_bind; [apply quiet_fire_broadcast|intros futures].
  destruct (Class.issubclass _ _); [|apply quiet_pure, pure_ret].
  apply quiet_bind; [apply quiet_pure, parse_pure|intros [[[pn cn] a]|]].
  - intros w. exists []. apply scheduled_nil.
  - apply quiet_bind; [apply quiet_fire_broadcast|intros more].
    apply quiet_pure, pure_ret.
Qed.

(** ** Instances kept per channel *)

Lemma channel_cases (ev : event) :
  (∃ e, ∀ w, Message.channel ev w = (Raise e, w))
  ∨ (∃ chan, args (raw_message ev) !! 0 = Some chan
             ∧ ∀ w, Message.channel ev w = (Ok chan, w)).
Proof.
  unfold Message.channel, Message.arg.
  destruct (Class.issubclass _ _); [|left; by exists AttributeError].
  destruct (args (raw_message ev) !! 0) as [chan|].
  - right. by exists chan.
  - left. by exists IndexError.
Qed.

(** The outcomes of [per_channel]: the channel cannot be read; the object
    is there already; [cls(channel)] returns an object, which is stored; or
    [cls(channel)] raises, after the dictionary of the channel was made. *)
Lemma per_channel_cases (ev : EventWrapper) (cls : string) (w : World) :
  (∃ e, PluginDataWrapper.per_channel ev cls w = (Raise e, w))
  ∨ (∃ chan i,
       args (raw_message (wrapped ev)) !! 0 = Some chan
       ∧ stored w (data ev) chan cls = Some i
       ∧ PluginDataWrapper.per_channel ev cls w = (Ok i, w))
  ∨ (∃ chan i w',
       args (raw_message (wrapped ev)) !! 0 = Some chan
       ∧ stored w (data ev) chan cls = None
       ∧ built w cls chan = Some i
       ∧ PluginDataWrapper.per_channel ev cls w = (Ok i, w')
       ∧ next_id w ≤ next_id w' ≤ S (next_id w)
       ∧ (construct cls chan = New → next_id w' = S (next_id w))
       ∧ loaded_plugins w' = loaded_plugins w
       ∧ (∀ k, k ≠ data ev → data_of w' k = data_of w k)
       ∧ general (data_of w' (data ev)) = general (data_of w (data ev))
       ∧ ∀ k c s,
           stored w' k c s
           = if decide (k = data ev ∧ c = chan ∧ s = cls) then Some i
             else stored w k c s)
  ∨ (∃ chan e w',
       args (raw_message (wrapped ev)) !! 0 = Some chan
       ∧ construct cls chan = Fails e
       ∧ PluginDataWrapper.per_channel ev cls w = (Raise e, w')
       ∧ next_id w' = next_id w
       ∧ loaded_plugins w' = loaded_plugins w
       ∧ (∀ k, k ≠ data ev → data_of w' k = data_of w k)
       ∧ general (data_of w' (data ev)) = general (data_of w (data ev))
       ∧ ∀ k c s, stored w' k c s = stored w k c s).
Proof.
  unfold PluginDataWrapper.per_channel.
  destruct (channel_cases (wrapped ev)) as [[e He]|(chan & Hchan & Hc)].
  { left. exists e. by rewrite (bind_raise _ _ _ _ _ (He w)). }
  rewrite (bind_ok _ _ _ _ _ (Hc w)), (bind_ok get_world _ w w w eq_refl).
  destruct (default ∅ (per_channel (data_of w (data ev)) !! chan) !! cls)
    as [i|] eqn:Hi.
  { right. left. exists chan, i. split; [done|]. split; [|done].
    unfold stored. by destruct (per_channel (data_of w (data ev)) !! chan). }
  assert (Hnone : stored w (data ev) chan cls = None).
  { unfold stored. by destruct (per_channel (data_of w (data ev)) !! chan). }
  assert (Hupd : ∀ (v : World) (i : instance) (k c s : string),
    next_id v = next_id v →
    stored (set_plugin_data
              (<[data ev :=
                   {| general := general (data_of w (data ev));
                      per_channel :=
                        <[chan := <[cls := i]>
                                    (default ∅ (per_channel (data_of w (data ev)) !! chan))]>
                          (per_channel (data_of w (data ev))) |}]>
                 (plugin_data w)) v) k c s
    = if decide (k = data ev ∧ c = chan ∧ s = cls) then Some i
      else stored w k c s).
  { intros v i k c s _. unfold stored at 1, data_of at 1. simpl.
    destruct (decide (k = data ev)) as [->|Hk].
    2:{ rewrite lookup_insert_ne by done.
        rewrite decide_False by (intros [? _]; done). reflexivity. }
    rewrite lookup_insert_eq. simpl.
    destruct (decide (c = chan)) as [->|Hcc].
    2:{ rewrite lookup_insert_ne by done.
        rewrite decide_False by (intros (_ & ? & _); done). reflexivity. }
    rewrite lookup_insert_eq. simpl.
    destruct (decide (s = cls)) as [->|Hss].
    - rewrite lookup_insert_eq. by rewrite decide_True.
    - rewrite lookup_insert_ne by done.
      rewrite decide_False by (intros (_ & _ & ?); done).
      unfold stored. by destruct (per_channel (data_of w (data ev)) !! chan). }
  destruct (construct cls chan) as [|i|e] eqn:Hcons.
  - right. right. left. exists chan. eexists _, _. split; [done|].
    split; [done|]. split; [unfold built; by rewrite Hcons|].
    split; [reflexivity|]. simpl.
    split; [lia|]. split; [done|]. split; [done|]. split; [|split].
    + intros k Hk. unfold data_of. simpl. by rewrite lookup_insert_ne.
    + unfold data_of at 1. simpl. by rewrite lookup_insert_eq.
    + intros k c s. by apply Hupd.
  - right. right. left. exists chan. eexists _, _. split; [done|].
    split; [done|]. split; [unfold built; by rewrite Hcons|].
    split; [reflexivity|]. simpl.
    split; [lia|]. split; [congruence|]. split; [done|]. split; [|split].
    + intros k Hk. unfold data_of. simpl. by rewrite lookup_insert_ne.
    + unfold data_of at 1. simpl. by rewrite lookup_insert_eq.
    + intros k c s. by apply Hupd.
  - right. right. right. exists chan, e. eexists. split; [done|].
    split; [done|]. split; [reflexivity|]. simpl.
    split; [done|]. split; [done|]. split; [|split].
    + intros k Hk. unfold data_of. simpl. by rewrite lookup_insert_ne.
    + unfold data_of at 1. simpl. by rewrite lookup_insert_eq.
    + intros k c s. unfold stored at 1, data_of at 1. simpl.
      destruct (decide (k = data ev)) as [->|Hk].
      2:{ by rewrite lookup_insert_ne. }
      rewrite lookup_insert_eq. simpl.
      destruct (decide (c = chan)) as [->|Hcc].
      2:{ by rewrite lookup_insert_ne. }
      rewrite lookup_insert_eq. simpl.
      unfold stored. by destruct (per_channel (data_of w (data ev)) !! chan).
Qed.

Lemma stored_ext (w w' : World) :
  (∀ k, per_channel (data_of w' k) = per_channel (data_of w k)) →
  ∀ k c s, stored w' k c s = stored w k c s.
Proof. intros H k c s. unfold stored. by rewrite H. Qed.

Lemma set_data_per_channel (w : World) (d : string) (pd : PluginData) :
  per_channel pd = per_channel (data_of w d) →
  ∀ k, per_channel (data_of (set_plugin_data (<[d := pd]> (plugin_data w)) w) k)
       = per_channel (data_of w k).
Proof.
  intros Hpd k. unfold data_of at 1. simpl.
  destruct (decide (d = k)) as [->|Hk].
  - by rewrite lookup_insert_eq.
  - by rewrite lookup_insert_ne.
Qed.

Lemma set_data_other (w : World) (d k : string) (pd : PluginData) :
  d ≠ k →
  data_of (set_plugin_data (<[d := pd]> (plugin_data w)) w) k = data_of w k.
Proof. intros Hk. unfold data_of. simpl. by rewrite lookup_insert_ne. Qed.

(** An action either leaves the stored objects as they are, and the next
    identity too, or it is the [per_channel] that stores what
    [cls(channel)] returned. *)
Lemma perform_stored (a : action) (w : World) :
  (next_id (perform a w) = next_id w
   ∧ ∀ k c s, stored (perform a w) k c s = stored w k c s)
  ∨ (∃ ev cls chan i,
       a = PerChannel ev cls
       ∧ stored w (data ev) chan cls = None
       ∧ built w cls chan = Some i
       ∧ next_id w ≤ next_id (perform a w) ≤ S (next_id w)
       ∧ (construct cls chan = New → next_id (perform a w) = S (next_id w))
       ∧ ∀ k c s,
           stored (perform a w) k c s
           = if decide (k = data ev ∧ c = chan ∧ s = cls) then Some i
             else stored w k c s).
Proof.
  destruct a as [ev|known n|ev cls|ev key|ev key value|ev key|ev]; simpl.
  - left. destruct (quiet_fire ev w) as (ts & _ & _ & Hn & Hd).
    split; [done|]. apply stored_ext. intros k. by rewrite Hd.
  - left. unfold PluginManager.load.
    rewrite (bind_ok get_world _ w w w eq_refl).
    destruct (dict_get n (loaded_plugins w)); [done|].
    destruct (known !! n); done.
  - destruct (per_channel_cases ev cls w)
      as [[e ->]|[(chan & i & _ & _ & ->)
                 |[(chan & i & w' & _ & Hnone & Hb & -> & Hn & Hn' & _ & _ & _ & Hst)
                  |(chan & e & w' & _ & _ & -> & Hn & _ & _ & _ & Hst)]]].
    + by left.
    + by left.
    + right. by exists ev, cls, chan, i.
    + by left.
  - left. unfold PluginDataWrapper.getitem.
    rewrite (bind_ok get_world _ w w w eq_refl).
    destruct (general _) as [g|]; [|done]. by destruct (g !! key).
  - left. unfold PluginDataWrapper.setitem.
    rewrite (bind_ok get_world _ w w w eq_refl).
    destruct (general _) as [g|]; [|done].
    split; [done|]. apply stored_ext. by apply set_data_per_channel.
  - left. unfold PluginDataWrapper.delitem.
    rewrite (bind_ok get_world _ w w w eq_refl).
    destruct (general _) as [g|]; [|done].
    split; [done|]. apply stored_ext. by apply set_data_per_channel.
  - left. unfold PluginDataWrapper.len.
    rewrite (bind_ok get_world _ w w w eq_refl).
    by destruct (general _).
Qed.

(** An action leaves alone the data of every plugin other than the one
    whose view it goes through. *)
Lemma perform_frame (a : action) (w : World) (k : string) :
  view_of a ≠ Some k → data_of (perform a w) k = data_of w k.
Proof.
  destruct a as [ev|known n|ev cls|ev key|ev key value|ev key|ev]; simpl;
    intros Hk.
  - destruct (quiet_fire ev w) as (ts & _ & _ & _ & Hd). apply Hd.
  - unfold PluginManager.load.
    rewrite (bind_ok get_world _ w w w eq_refl).
    destruct (dict_get n (loaded_plugins w)); [done|].
    destruct (known !! n); done.
  - destruct (per_channel_cases ev cls w)
      as [[e ->]|[(chan & i & _ & _ & ->)
                 |[(chan & i & w' & _ & _ & _ & -> & _ & _ & _ & Hd & _)
                  |(chan & e & w' & _ & _ & -> & _ & _ & Hd & _)]]]; try done.
    + apply Hd. congruence.
    + apply Hd. congruence.
  - unfold PluginDataWrapper.getitem.
    rewrite (bind_ok get_world _ w w w eq_refl).
    destruct (general _) as [g|]; [|done]. by destruct (g !! key).
  - unfold PluginDataWrapper.setitem.
    rewrite (bind_ok get_world _ w w w eq_refl).
    destruct (general _) as [g|]; [|done].
    apply set_data_other. congruence.
  - unfold PluginDataWrapper.delitem.
    rewrite (bind_ok get_world _ w w w eq_refl).
    destruct (general _) as [g|]; [|done].
    apply set_data_other. congruence.
  - unfold PluginDataWrapper.len.
    rewrite (bind_ok get_world _ w w w eq_refl).
    by destruct (general _).
Qed.

Lemma perform_keeps (a : action) (w : World) (k c s : string) (i : instance) :
  stored w k c s = Some i → stored (perform a w) k c s = Some i.
Proof.
  intros Hi.
  destruct (perform_stored a w)
    as [[_ Hst]|(ev & cls & chan & j & _ & Hnone & _ & _ & _ & Hst)];
    rewrite Hst; [done|].
  case_decide as Hd; [|done]. destruct Hd as (-> & -> & ->). congruence.
Qed.

Lemma built_New (w : World) (cls chan : string) (i : instance) :
  built w cls chan = Some i → construct cls chan = New →
  i = {| inst_id := next_id w; inst_class := cls; inst_channel := chan |}.
Proof. unfold built. intros Hb Hc. rewrite Hc in Hb. congruence. Qed.

Lemma perform_isolated (a : action) (w : World) :
  isolated w → isolated (perform a w).
Proof.
  intros [Hlt Hinj].
  destruct (perform_stored a w)
    as [[Hn Hst]|(ev & cls & chan & j & _ & Hnone & Hb & Hn & Hn' & Hst)].
  - split.
    + intros k c s i. rewrite Hst, Hn. apply Hlt.
    + intros k c s i k' c' s' i'. rewrite !Hst. apply Hinj.
  - split.
    + intros k c s i. rewrite Hst. case_decide as Hd.
      * destruct Hd as (-> & -> & ->). intros [= <-] Hc.
        rewrite (built_New _ _ _ _ Hb Hc), (Hn' Hc). simpl. split; [lia|done].
      * intros Hi Hc. destruct (Hlt _ _ _ _ Hi Hc) as [? ?]. split; [lia|done].
    + intros k c s i k' c' s' i'. rewrite !Hst.
      case_decide as Hd; case_decide as Hd'.
      * destruct Hd as (-> & -> & ->), Hd' as (-> & -> & ->). done.
      * destruct Hd as (-> & -> & ->). intros [= <-] Hi' Hc Hc' Heq.
        rewrite (built_New _ _ _ _ Hb Hc) in Heq.
        destruct (Hlt _ _ _ _ Hi' Hc') as [? _]. simpl in Heq. lia.
      * destruct Hd' as (-> & -> & ->). intros Hi [= <-] Hc Hc' Heq.
        rewrite (built_New _ _ _ _ Hb Hc') in Heq.
        destruct (Hlt _ _ _ _ Hi Hc) as [? _]. simpl in Heq. lia.
      * apply Hinj.
Qed.

Lemma stored_init (k c s : string) : stored PluginManager.init k c s = None.
Proof.
  unfold stored, data_of, PluginManager.init. cbn [plugin_data].
  rewrite lookup_empty. cbn [default PluginData_init per_channel].
  by rewrite lookup_empty.
Qed.

Lemma isolated_init : isolated PluginManager.init.
Proof. split; intros k c s i; by rewrite stored_init. Qed.

Lemma run_isolated (l : list action) (w : World) : isolated w → isolated (run l w).
Proof.
  revert w. induction l as [|a l IH]; intros w Hw; [done|].
  simpl. apply IH. by apply perform_isolated.
Qed.

Lemma run_keeps (l : list action) (w : World) (k c s : string) (i : instance) :
  stored w k c s = Some i → stored (run l w) k c s = Some i.
Proof.
  revert w. induction l as [|a l IH]; intros w Hi; [done|].
  simpl. apply IH. by apply perform_keeps.
Qed.

(** The object returned by [per_channel] is the one stored for the
    plugin, the channel and the class. *)
Lemma per_channel_stored (ev : EventWrapper) (cls chan : string) (i : instance)
    (w w' : World) :
  PluginDataWrapper.per_channel ev cls w = (Ok i, w') →
  args (raw_message (wrapped ev)) !! 0 = Some chan →
  w' = perform (PerChannel ev cls) w
  ∧ stored w' (data ev) chan cls = Some i.
Proof.
  intros Hrun Hchan. split; [simpl; by rewrite Hrun|].
  destruct (per_channel_cases ev cls w)
    as [[e He]|[(chan' & i' & Hc & Hst & Hr)
               |[(chan' & i' & v & Hc & _ & _ & Hr & _ & _ & _ & _ & _ & Hst)
                |(chan' & e & v & _ & _ & Hr & _)]]].
  - congruence.
  - rewrite Hr in Hrun. injection Hrun as <- <-. congruence.
  - rewrite Hr in Hrun. injection Hrun as <- <-.
    rewrite Hst. rewrite decide_True; [done|]. split; [done|].
    split; [congruence|done].
  - congruence.
Qed.

(** C7, as the code has it, for a slot class [T] whose call builds a new
    object: from a new manager on, whatever is done before and in between,
    two calls of [per_channel] for [T] return instances of [T] which are two
    objects when the calls are made for two channels through views of one
    plugin, and when they are made through views of two plugins, on the same
    channel or not; and, for every slot class, what is done through a view
    of the first plugin leaves the data of the second, its general mapping
    included, as it was. *)
Theorem per_channel_isolation (before between : list action)
    (ev1 ev2 : EventWrapper) (T c1 c2 : string) (i1 i2 : instance)
    (w1 w2 : World) :
  PluginDataWrapper.per_channel ev1 T (run before PluginManager.init) = (Ok i1, w1) →
  PluginDataWrapper.per_channel ev2 T (run between w1) = (Ok i2, w2) →
  args (raw_message (wrapped ev1)) !! 0 = Some c1 →
  args (raw_message (wrapped ev2)) !! 0 = Some c2 →
  (construct T c1 = New → construct T c2 = New →
   inst_class i1 = T ∧ inst_class i2 = T
   ∧ (data ev1 = data ev2 → c1 ≠ c2 → inst_id i1 ≠ inst_id i2 ∧ i1 ≠ i2)
   ∧ (data ev1 ≠ data ev2 → inst_id i1 ≠ inst_id i2 ∧ i1 ≠ i2))
  ∧ (data ev1 ≠ data ev2 →
     ∀ a w, view_of a = Some (data ev1) →
            data_of (perform a w) (data ev2) = data_of w (data ev2)).
Proof.
  intros Hr1 Hr2 Hc1 Hc2. split.
  2:{ intros Hne a w Hv. apply perform_frame. rewrite Hv. congruence. }
  intros Hn1 Hn2.
  pose proof (run_isolated before _ isolated_init) as Hw.
  destruct (per_channel_stored ev1 T c1 i1 _ w1 Hr1 Hc1) as [Hw1 Hs1].
  assert (Hiso1 : isolated w1) by (rewrite Hw1; by apply perform_isolated).
  pose proof (run_isolated between _ Hiso1) as Hw'.
  destruct (per_channel_stored ev2 T c2 i2 _ w2 Hr2 Hc2) as [Hw2 Hs2].
  assert (Hiso2 : isolated w2) by (rewrite Hw2; by apply perform_isolated).
  assert (Hs1' : stored w2 (data ev1) c1 T = Some i1).
  { rewrite Hw2. apply perform_keeps. by apply run_keeps. }
  destruct Hiso2 as [Hlt Hinj].
  split; [apply (Hlt _ _ _ _ Hs1' Hn1)|]. split; [apply (Hlt _ _ _ _ Hs2 Hn2)|].
  assert (Hid : inst_id i1 = inst_id i2 → data ev1 = data ev2 ∧ c1 = c2).
  { intros Heq.
    destruct (Hinj _ _ _ _ _ _ _ _ Hs1' Hs2 Hn1 Hn2 Heq) as (? & ? & _). done. }
  split.
  - intros _ Hne.
    assert (Hids : inst_id i1 ≠ inst_id i2) by (intros Heq; by apply Hid in Heq as [_ ?]).
    split; [done|congruence].
  - intros Hne.
    assert (Hids : inst_id i1 ≠ inst_id i2) by (intros Heq; by apply Hid in Heq as [? _]).
    split; [done|congruence].
Qed.

Lemma per_channel_isolation_witness :
  let ev1 := wrapper (sample_message "#a" "hi") echo_plugin in
  let ev2 := wrapper (sample_message "#b" "hi") echo_plugin in
  let ev3 := wrapper (sample_message "#a" "hi") other_plugin in
  let i1 := {| inst_id := 0; inst_class := "Counter"; inst_channel := "#a" |} in
  let i2 := {| inst_id := 1; inst_class := "Counter"; inst_channel := "#b" |} in
  let i3 := {| inst_id := 1; inst_class := "Counter"; inst_channel := "#a" |} in
  ((PluginDataWrapper.per_channel ev1 "Counter";;
    PluginDataWrapper.setitem ev1 "a" "1";;
    PluginDataWrapper.per_channel ev2 "Counter") PluginManager.init).1 = Ok i2
  ∧ ((PluginDataWrapper.per_channel ev1 "Counter";;
      PluginDataWrapper.per_channel ev3 "Counter") PluginManager.init).1 = Ok i3
  ∧ (inst_id i1 ≠ inst_id i2 ∧ i1 ≠ i2)
  ∧ (inst_id i1 ≠ inst_id i3 ∧ i1 ≠ i3)
  ∧ (∀ a w, view_of a = Some (data ev1) →
            data_of (perform a w) (data ev3) = data_of w (data ev3)).
Proof.
  split; [vm_compute; reflexivity|]. split; [vm_compute; reflexivity|].
  assert (H12 := per_channel_isolation []
           [SetItem (wrapper (sample_message "#a" "hi") echo_plugin) "a" "1"]
           (wrapper (sample_message "#a" "hi") echo_plugin)
           (wrapper (sample_message "#b" "hi") echo_plugin)
           "Counter" "#a" "#b"
           {| inst_id := 0; inst_class := "Counter"; inst_channel := "#a" |}
           {| inst_id := 1; inst_class := "Counter"; inst_channel := "#b" |}
           (PluginDataWrapper.per_channel
              (wrapper (sample_message "#a" "hi") echo_plugin) "Counter"
              PluginManager.init).2
           (PluginDataWrapper.per_channel
              (wrapper (sample_message "#b" "hi") echo_plugin) "Counter"
              (run [SetItem (wrapper (sample_message "#a" "hi") echo_plugin) "a" "1"]
                 (PluginDataWrapper.per_channel
                    (wrapper (sample_message "#a" "hi") echo_plugin) "Counter"
                    PluginManager.init).2)).2).
  assert (H13 := per_channel_isolation [] []
           (wrapper (sample_message "#a" "hi") echo_plugin)
           (wrapper (sample_message "#a" "hi") other_plugin)
           "Counter" "#a" "#a"
           {| inst_id := 0; inst_class := "Counter"; inst_channel := "#a" |}
           {| inst_id := 1; inst_class := "Counter"; inst_channel := "#a" |}
           (PluginDataWrapper.per_channel
              (wrapper (sample_message "#a" "hi") echo_plugin) "Counter"
              PluginManager.init).2
           (PluginDataWrapper.per_channel
              (wrapper (sample_message "#a" "hi") other_plugin) "Counter"
              (PluginDataWrapper.per_channel
                 (wrapper (sample_message "#a" "hi") echo_plugin) "Counter"
                 PluginManager.init).2).2).
  destruct H12 as [Hnew _]; [reflexivity|reflexivity|reflexivity|reflexivity|].
  destruct (Hnew eq_refl eq_refl) as (_ & _ & Hchan & _).
  destruct H13 as [Hnew' Hframe]; [reflexivity|reflexivity|reflexivity|reflexivity|].
  destruct (Hnew' eq_refl eq_refl) as (_ & _ & _ & Hplug).
  split; [apply Hchan; [reflexivity|discriminate]|].
  split; [apply Hplug; discriminate|].
  apply Hframe. discriminate.
Defined.

(** C7 as stated fails for a slot class whose call does not build a new
    object: with [bool], the calls for two channels through views of one
    plugin, and the call through a view of another plugin, all return the
    one object [True]. *)
Lemma per_channel_isolation_counterexample :
  let ev1 := wrapper (sample_message "#a" "hi") echo_plugin in
  let ev2 := wrapper (sample_message "#b" "hi") echo_plugin in
  let ev3 := wrapper (sample_message "#a" "hi") other_plugin in
  let true_object := {| inst_id := 1; inst_class := "bool"; inst_channel := "" |} in
  ((i1 ← PluginDataWrapper.per_channel ev1 "bool";
    i2 ← PluginDataWrapper.per_channel ev2 "bool";
    i3 ← PluginDataWrapper.per_channel ev3 "bool";
    mret (i1, i2, i3)) PluginManager.init).1
  = Ok (true_object, true_object, true_object).
Proof. vm_compute. reflexivity. Qed.

(** * Further properties of the code *)

(** ** The address test of [PluginManager.fire] *)

Lemma append_nil_r (s : string) : s +:+ "" = s.
Proof.
  induction s as [|a s IH]; [done|].
  change (String a (s +:+ "") = String a s). by rewrite IH.
Qed.

Lemma append_cons (c : ascii) (s r : string) :
  String c s +:+ r = String c (s +:+ r).
Proof. reflexivity. Qed.

Lemma append_inj (p r1 r2 : string) : p +:+ r1 = p +:+ r2 → r1 = r2.
Proof.
  induction p as [|a p IH]; [done|].
  change (String a (p +:+ r1) = String a (p +:+ r2) → r1 = r2).
  intros [= H]. by apply IH.
Qed.

Lemma startswith_spec (s p : string) :
  PyStr.startswith s p = true ↔ ∃ r, s = p +:+ r.
Proof.
  split.
  - revert s. induction p as [|a p IH]; intros s; simpl.
    + intros _. by exists s.
    + destruct s as [|b s]; [done|]. case_decide as Hab; [|done].
      intros H. destruct (IH _ H) as [r ->]. exists r. by rewrite Hab.
  - intros [r ->]. apply startswith_app.
Qed.

Lemma contains_separators (c : ascii) :
  PyStr.contains ":, " c = true ↔ (c = ":" ∨ c = "," ∨ c = " ")%char.
Proof.
  simpl. repeat case_decide; split; intros Hc; try done; try tauto;
    destruct Hc as [?|[?|?]]; congruence.
Qed.

(** X1: the address test never changes the world; it raises [IndexError]
    exactly when the text is the nickname, answers [True] exactly when the
    text is the nickname followed by one of [:], [,] and the space and then
    anything, and answers [False] otherwise. *)
Theorem is_command_spec (text n : string) (w : World) :
  (PluginManager.is_command text n w = (Raise IndexError, w) ↔ text = n)
  ∧ (PluginManager.is_command text n w = (Ok true, w)
     ↔ ∃ c rest, text = n +:+ String c rest ∧ (c = ":" ∨ c = "," ∨ c = " ")%char)
  ∧ (PluginManager.is_command text n w = (Raise IndexError, w)
     ∨ PluginManager.is_command text n w = (Ok true, w)
     ∨ PluginManager.is_command text n w = (Ok false, w)).
Proof.
  unfold PluginManager.is_command.
  destruct (PyStr.startswith text n) eqn:Hs.
  - apply startswith_spec in Hs as [r ->]. destruct r as [|c rest].
    + rewrite append_nil_r, index_length. split; [done|]. split; [|by left].
      split; [done|]. intros (c & rest & H & _).
      rewrite <- (append_nil_r n) in H at 1. by apply append_inj in H.
    + rewrite index_app_length. split; [|split].
      * split; [done|]. intros H. rewrite <- (append_nil_r n) in H at 2.
        by apply append_inj in H.
      * split.
        -- intros [= H]. exists c, rest. split; [done|]. by apply contains_separators.
        -- intros (c' & rest' & H & Hc). apply append_inj in H. injection H as -> ->.
           apply contains_separators in Hc. by rewrite Hc.
      * right. destruct (PyStr.contains ":, " c); [by left|by right].
  - split; [|split].
    + split; [done|]. intros ->. by rewrite startswith_refl in Hs.
    + split; [done|]. intros (c & rest & -> & _). by rewrite startswith_app in Hs.
    + by right; right.
Qed.

(** ** The command line *)

Lemma span_word_no_space (t : string) : no_space (PyStr.span_word t).1.
Proof.
  unfold no_space. induction t as [|c t IH]; simpl; [done|].
  destruct (PyStr.isspace c) eqn:Hc; [done|].
  destruct (PyStr.span_word t) as [w r]. simpl in *. by rewrite Hc.
Qed.

Lemma span_word_app (t : string) :
  (PyStr.span_word t).1 +:+ (PyStr.span_word t).2 = t.
Proof.
  induction t as [|c t IH]; simpl; [done|].
  destruct (PyStr.isspace c); [done|].
  destruct (PyStr.span_word t) as [w r]. simpl in *.
  by rewrite append_cons, IH.
Qed.

Lemma lstrip_lstrip (s : string) : PyStr.lstrip (PyStr.lstrip s) = PyStr.lstrip s.
Proof.
  induction s as [|c s IH]; simpl; [done|].
  destruct (PyStr.isspace c) eqn:Hc; [done|]. simpl. by rewrite Hc.
Qed.

Lemma rstrip_spaces (r : string) : PyStr.lstrip r = "" → PyStr.rstrip r = "".
Proof.
  induction r as [|c r IH]; simpl; [done|].
  destruct (PyStr.isspace c) eqn:Hc; [|done]. intros H. by rewrite IH.
Qed.

Lemma rstrip_word (w r : string) :
  no_space w → PyStr.lstrip r = "" → PyStr.rstrip (w +:+ r) = w.
Proof.
  unfold no_space. intros Hw Hr. induction w as [|c w IH].
  - by apply rstrip_spaces.
  - cbn [all_chars] in Hw. apply andb_true_iff in Hw as [Hc Hw].
    rewrite append_cons. cbn [PyStr.rstrip]. rewrite IH by done.
    destruct w; [|done]. by destruct (PyStr.isspace c).
Qed.

Lemma split_command_word (message : string) :
  PluginManager.split_command message
  = ((PyStr.span_word (PyStr.lstrip message)).1,
     PyStr.lstrip (PyStr.span_word (PyStr.lstrip message)).2).
Proof.
  unfold PluginManager.split_command, PyStr.split_max, PyStr.strip.
  cbn [PyStr.split_ws].
  pose proof (lstrip_length message) as Hlen.
  destruct (PyStr.lstrip message) as [|c t] eqn:Hm; [done|].
  pose proof (span_word_no_space (String c t)) as Hw.
  pose proof (span_word_app (String c t)) as Happ.
  destruct (PyStr.span_word (String c t)) as [w r]. simpl in Hw, Happ.
  destruct (String.length message) as [|n]; [simpl in Hlen; lia|].
  cbn [PyStr.split_ws fst snd].
  destruct (PyStr.lstrip r) as [|d u] eqn:Hr; [|done].
  rewrite <- Happ. by rewrite rstrip_word.
Qed.

Lemma split_command_shape (message : string) :
  no_space (PluginManager.split_command message).1
  ∧ PyStr.lstrip (PluginManager.split_command message).2
    = (PluginManager.split_command message).2.
Proof.
  rewrite split_command_word. simpl. split.
  - apply span_word_no_space.
  - apply lstrip_lstrip.
Qed.

(** X2: the [try]/[except] around [message.split(None, 1)] always yields
    the first word of the message as the command name, whether the split gave
    two items or the fallback [message.strip()] was taken, and what follows
    the word, without its leading whitespace, as the argument string; the
    command name has no whitespace and the argument string does not start
    with whitespace. *)
Theorem split_command_first_word (message : string) :
  PluginManager.split_command message
  = ((PyStr.span_word (PyStr.lstrip message)).1,
     PyStr.lstrip (PyStr.span_word (PyStr.lstrip message)).2)
  ∧ no_space (PluginManager.split_command message).1
  ∧ PyStr.lstrip (PluginManager.split_command message).2
    = (PluginManager.split_command message).2.
Proof. split; [apply split_command_word|apply split_command_shape]. Qed.

Lemma rfind_dot_some (s h t : string) :
  PyStr.rfind_dot s = Some (h, t) →
  s = h +:+ "." +:+ t ∧ PyStr.contains t "." = false.
Proof.
  revert h t. induction s as [|c s IH]; intros h t; simpl; [done|].
  destruct (PyStr.rfind_dot s) as [[h' t']|] eqn:Hs.
  - intros [= <- <-]. destruct (IH _ _ eq_refl) as [-> Ht]. by split.
  - case_decide as Hc; [|done]. intros [= <- <-]. subst c. split; [done|].
    clear IH. induction s as [|d s IH]; [done|]. simpl in *.
    destruct (PyStr.rfind_dot s) as [[h' t']|]; [done|].
    case_decide; [done|]. rewrite decide_False by congruence. by apply IH.
Qed.

Lemma no_space_app (a b : string) : no_space (a +:+ b) → no_space a ∧ no_space b.
Proof.
  unfold no_space. induction a as [|c a IH]; [done|].
  rewrite append_cons. cbn [all_chars]. intros H.
  apply andb_true_iff in H as [Hc H]. destruct (IH H) as [Ha Hb].
  by rewrite Hc, Ha.
Qed.

(** X3: whenever the parse of [fire] takes a message as a command, the
    command name it finds has neither a dot nor whitespace, the plugin name
    has no whitespace, and the argument string does not start with
    whitespace. *)
Theorem parse_command_names (ev : event) (pn cn a : string) (w : World) :
  PluginManager.parse_command ev w = (Ok (Some (pn, cn, a)), w) →
  PyStr.contains cn "." = false
  ∧ no_space cn ∧ no_space pn
  ∧ PyStr.lstrip a = a.
Proof.
  unfold PluginManager.parse_command, mbind, M_bind.
  destruct (Message.channel ev w) as [[chan|e] w1]; [|done].
  destruct (Message.message ev w1) as [[text|e] w2]; [|done].
  destruct (PluginManager.is_command _ _ w2) as [[b|e] w3]; [|done].
  destruct (_ || _); [|done].
  match goal with |- context [PluginManager.split_command ?m] =>
    destruct (split_command_shape m) as (Hns & Hl);
    destruct (PluginManager.split_command m) as [word a'] end.
  simpl in Hns, Hl. unfold PyStr.rpartition_dot.
  destruct (PyStr.rfind_dot word) as [[h t]|] eqn:Hr.
  - intros [= <- <- <-]. apply rfind_dot_some in Hr as [-> Ht].
    apply no_space_app in Hns as [Hh Hns]. apply no_space_app in Hns as [_ Hns].
    done.
  - intros [= <- <- <-]. split; [|done].
    clear Hns. induction word as [|d s IH]; [done|]. simpl in *.
    destruct (PyStr.rfind_dot s) as [[h' t']|]; [done|].
    case_decide; [done|]. rewrite decide_False by congruence. by apply IH.
Qed.

Lemma parse_command_names_witness :
  let ev := sample_message "#chan" "dywypi: echo.shout  hi there" in
  PluginManager.parse_command ev sample_world
  = (Ok (Some ("echo", "shout", "hi there")), sample_world)
  ∧ PyStr.contains "shout" "." = false
  ∧ no_space "shout" ∧ no_space "echo"
  ∧ PyStr.lstrip "hi there" = "hi there".
Proof.
  split; [reflexivity|].
  apply (parse_command_names
           (sample_message "#chan" "dywypi: echo.shout  hi there")
           "echo" "shout" "hi there" sample_world).
  reflexivity.
Defined.

(** ** The registry of plugins *)

(** X4: a plugin made with a name that is free is filed under that name,
    without listeners and commands, and the other plugins stay as they were;
    the registry keeps every plugin under its own name; and the name is taken
    from then on: making a second plugin with it raises [NameError]. *)
Theorem init_registers_once (n : string) (p : plugin)
    (known known' : gmap string plugin) :
  Plugin.init n known = Ok (p, known') →
  registry_ok known →
  known !! n = None
  ∧ name p = n ∧ listeners p = ∅ ∧ commands p = ∅
  ∧ known' !! n = Some p
  ∧ (∀ m, m ≠ n → known' !! m = known !! m)
  ∧ registry_ok known'
  ∧ Plugin.init n known' = Raise NameError.
Proof.
  unfold Plugin.init. destruct (known !! n) eqn:Hn; [done|].
  intros [= <- <-] Hok. split; [done|]. repeat split.
  - apply lookup_insert_eq.
  - intros m Hm. by rewrite lookup_insert_ne.
  - intros m q. destruct (decide (n = m)) as [->|Hm].
    + rewrite lookup_insert_eq. by intros [= <-].
    + rewrite lookup_insert_ne by done. apply Hok.
  - by rewrite lookup_insert_eq.
Qed.

Lemma init_registers_once_witness :
  (∅ : gmap string plugin) !! "echo" = None
  ∧ name (empty_plugin "echo") = "echo"
  ∧ listeners (empty_plugin "echo") = ∅ ∧ commands (empty_plugin "echo") = ∅
  ∧ ({["echo" := empty_plugin "echo"]} : gmap string plugin) !! "echo"
    = Some (empty_plugin "echo")
  ∧ (∀ m, m ≠ "echo" →
          ({["echo" := empty_plugin "echo"]} : gmap string plugin) !! m
          = (∅ : gmap string plugin) !! m)
  ∧ registry_ok {["echo" := empty_plugin "echo"]}
  ∧ Plugin.init "echo" {["echo" := empty_plugin "echo"]} = Raise NameError.
Proof.
  apply (init_registers_once "echo" (empty_plugin "echo") ∅
           {["echo" := empty_plugin "echo"]}).
  - reflexivity.
  - intros n p H. by rewrite lookup_empty in H.
Defined.

(** ** Listeners *)

Lemma mro_self (c : Class.t) : c ∈ Class.mro c.
Proof. destruct c; left. Qed.

Lemma mro_NoDup (c : Class.t) : NoDup (Class.mro c).
Proof.
  induction c as [|n b IH]; simpl.
  - apply NoDup_singleton.
  - apply NoDup_cons. split; [|done]. apply (mro_tail_not_head (Class.Sub n b)).
Qed.

Lemma mro_object (c : Class.t) : Class.object ∈ Class.mro c.
Proof. induction c as [|n b IH]; simpl; [left|by right]. Qed.

Lemma on_loop_all (f : nat) (l : list Class.t) (ls : gmap Class.t (list nat))
    (x : Class.t) :
  Class.Event ∉ l → NoDup l → x ∈ l →
  Plugin.on_loop f l ls !! x = Some (default [] (ls !! x) ++ [f]).
Proof.
  revert ls. induction l as [|c l IH]; intros ls He Hnd Hx.
  - by apply elem_of_nil in Hx.
  - apply not_elem_of_cons in He as [Hc Hl].
    apply NoDup_cons in Hnd as [Hcl Hnd]. simpl.
    rewrite decide_False by congruence.
    apply elem_of_cons in Hx as [->|Hx].
    + rewrite on_loop_not_in by done. by rewrite lookup_insert_eq.
    + rewrite IH by done. rewrite lookup_insert_ne; [done|].
      intros ->. done.
Qed.

(** X5: registering on a class below [Event] appends the handler after
    those already listed for that class, so that handlers are fired in the
    order of their registration and a handler registered twice is listed
    twice; the lists of the classes outside the chain of the class, the
    commands and the name of the plugin are untouched. *)
Theorem on_appends_in_order (c : Class.t) (h : nat) (p : plugin) :
  Class.Event ∈ Class.mro c → c ≠ Class.Event →
  ∃ p', Plugin.on c h p = Ok p'
        ∧ listeners_for p' c = listeners_for p c ++ [h]
        ∧ (∀ x, x ∉ Class.mro c → listeners_for p' x = listeners_for p x)
        ∧ commands p' = commands p ∧ name p' = name p.
Proof.
  intros He Hc. eexists. split; [by apply on_ok|].
  unfold listeners_for. simpl. split; [|split; [|done]].
  - by rewrite on_loop_ancestor by (done || apply mro_self).
  - intros x Hx. by rewrite on_loop_not_in.
Qed.

Lemma on_appends_in_order_witness :
  ∃ p', Plugin.on Class.Message 5 greeter_plugin = Ok p'
        ∧ listeners_for p' Class.Message
          = listeners_for greeter_plugin Class.Message ++ [5]
        ∧ (∀ x, x ∉ Class.mro Class.Message →
                listeners_for p' x = listeners_for greeter_plugin x)
        ∧ commands p' = commands greeter_plugin ∧ name p' = name greeter_plugin.
Proof.
  apply (on_appends_in_order Class.Message 5 greeter_plugin).
  - right. left.
  - discriminate.
Defined.

(** X6: for a class of system events, which derives from [_DummyEvent]
    and not from [Event], the loop of [on] never meets [Event] and runs to
    the end of the chain: the handler is appended under every class of the
    chain, [object] included. *)
Theorem on_system_event_reaches_object (c : Class.t) (h : nat) (p : plugin) :
  Class._DummyEvent ∈ Class.mro c → Class.Event ∉ Class.mro c →
  ∃ p', Plugin.on c h p = Ok p'
        ∧ (∀ x, x ∈ Class.mro c → listeners_for p' x = listeners_for p x ++ [h])
        ∧ listeners_for p' Class.object = listeners_for p Class.object ++ [h].
Proof.
  intros Hd He.
  assert (Hon : Plugin.on c h p
                = Ok {| name := name p;
                        listeners := Plugin.on_loop h (Class.mro c) (listeners p);
                        commands := commands p |}).
  { unfold Plugin.on, Class.issubclass.
    by rewrite (bool_decide_eq_true_2 _ Hd), orb_true_r. }
  eexists. split; [done|].
  assert (Hall : ∀ x, x ∈ Class.mro c →
            listeners_for {| name := name p;
                             listeners := Plugin.on_loop h (Class.mro c) (listeners p);
                             commands := commands p |} x
            = listeners_for p x ++ [h]).
  { intros x Hx. unfold listeners_for. simpl.
    by rewrite on_loop_all by (done || apply mro_NoDup). }
  split; [done|]. apply Hall, mro_object.
Qed.

Lemma on_system_event_reaches_object_witness :
  ∃ p', Plugin.on Class.Load 4 (empty_plugin "p") = Ok p'
        ∧ (∀ x, x ∈ Class.mro Class.Load →
                listeners_for p' x = listeners_for (empty_plugin "p") x ++ [4])
        ∧ listeners_for p' Class.object
          = listeners_for (empty_plugin "p") Class.object ++ [4].
Proof.
  apply (on_system_event_reaches_object Class.Load 4 (empty_plugin "p")).
  - right. left.
  - intros H. repeat (apply elem_of_cons in H as [H|H]; [discriminate|]).
    by apply elem_of_nil in H.
Defined.

(** ** Commands of a plugin *)

(** X7: registering a command under a name that is taken replaces the
    earlier command: the plugin is the one it would be with the last
    registration alone, [fire_command] runs the last handler under the last
    flag and never the earlier one, and commands of other names stay. *)
Theorem command_last_wins (p : plugin) (cn : string) (g1 g2 : bool) (f1 f2 : nat)
    (ev : EventWrapper) (c : CommandAttrs) (g : bool) (w : World) :
  command_attrs (wrapped ev) = Some c → command_name c = cn →
  Plugin.command cn g2 f2 (Plugin.command cn g1 f1 p) = Plugin.command cn g2 f2 p
  ∧ (∀ cn', cn' ≠ cn →
       commands (Plugin.command cn g2 f2 (Plugin.command cn g1 f1 p)) !! cn'
       = commands p !! cn')
  ∧ ∃ w', Plugin.fire_command (Plugin.command cn g2 f2 (Plugin.command cn g1 f1 p))
            ev g w
          = (Ok (if g2 || negb g then [task_of ev f2] else []), w')
        ∧ scheduled (if g2 || negb g then [task_of ev f2] else []) w w'.
Proof.
  intros Hc Hcn.
  assert (Heq : Plugin.command cn g2 f2 (Plugin.command cn g1 f1 p)
                = Plugin.command cn g2 f2 p).
  { unfold Plugin.command. simpl. by rewrite insert_insert_eq. }
  split; [done|]. split.
  - intros cn' Hne. unfold Plugin.command. simpl.
    by rewrite !lookup_insert_ne.
  - rewrite Heq.
    destruct (fire_command_run (Plugin.command cn g2 f2 p) ev g c w Hc)
      as (w' & Hf & Hs).
    exists w'. revert Hf Hs. unfold command_tasks, Plugin.command.
    rewrite Hc, Hcn. simpl. by rewrite lookup_insert_eq.
Qed.

Lemma command_last_wins_witness :
  let ev := wrapper (command_object (sample_message "" "echo foo") "echo" "foo")
              (empty_plugin "echo") in
  Plugin.command "echo" true 2 (Plugin.command "echo" false 1 (empty_plugin "echo"))
  = Plugin.command "echo" true 2 (empty_plugin "echo")
  ∧ (∀ cn', cn' ≠ "echo" →
       commands (Plugin.command "echo" true 2
                   (Plugin.command "echo" false 1 (empty_plugin "echo"))) !! cn'
       = commands (empty_plugin "echo") !! cn')
  ∧ ∃ w', Plugin.fire_command
            (Plugin.command "echo" true 2
               (Plugin.command "echo" false 1 (empty_plugin "echo")))
            ev true PluginManager.init
          = (Ok (if true || negb true then [task_of ev 2] else []), w')
        ∧ scheduled (if true || negb true then [task_of ev 2] else [])
            PluginManager.init w'.
Proof.
  apply (command_last_wins (empty_plugin "echo") "echo" false true 1 2
           (wrapper (command_object (sample_message "" "echo foo") "echo" "foo")
              (empty_plugin "echo"))
           {| command_name := "echo"; argstr := "foo"; command_args := ["foo"] |}
           true PluginManager.init).
  - reflexivity.
  - reflexivity.
Defined.

(** X8: [fire_command] on an event that has no [command_name], such as a
    wrapped plain message, raises [AttributeError] and creates nothing; when
    it returns, it returns at most one future, which is the one task it
    created. *)
Theorem fire_command_at_most_one (p : plugin) (ev : EventWrapper) (g : bool)
    (w : World) :
  (command_attrs (wrapped ev) = None →
   Plugin.fire_command p ev g w = (Raise AttributeError, w))
  ∧ (∀ fs w', Plugin.fire_command p ev g w = (Ok fs, w') →
       length fs ≤ 1 ∧ scheduled fs w w'
       ∧ Forall (λ t, task_event t = ev
                      ∧ ∃ c cmd, command_attrs (wrapped ev) = Some c
                                 ∧ commands p !! command_name c = Some cmd
                                 ∧ task_coro t = coro cmd) fs).
Proof.
  split.
  - intros Hc. unfold Plugin.fire_command. by rewrite Hc.
  - intros fs w' Hf.
    destruct (command_attrs (wrapped ev)) as [c|] eqn:Hc.
    2:{ unfold Plugin.fire_command in Hf. by rewrite Hc in Hf. }
    destruct (fire_command_run p ev g c w Hc) as (v & Hr & Hs).
    rewrite Hr in Hf. injection Hf as <- <-. split; [|split; [done|]].
    + unfold command_tasks. rewrite Hc.
      destruct (commands p !! command_name c) as [cmd|]; [|simpl; lia].
      destruct (_ || _); simpl; lia.
    + unfold command_tasks. rewrite Hc.
      destruct (commands p !! command_name c) as [cmd|] eqn:Hcmd; [|done].
      destruct (_ || _); [|done]. apply Forall_singleton.
      split; [done|]. by exists c, cmd.
Qed.

(** ** [Plugin.fire] *)

(** X9: on an event that has a loop, [Plugin.fire] never raises; it
    returns one future for each listener of the exact class of the event, in
    the order of registration, every one on the wrapped event it was given
    and on the loop of its client, and these futures are the tasks it
    created; it changes nothing else.  On an event that has no loop, such as
    a [Load] event, it returns no future when no listener is listed for the
    class, and otherwise raises [AttributeError] at [event.loop] for the
    first listener, without a task created. *)
Theorem Plugin_fire_one_per_listener (p : plugin) (ev : EventWrapper) (w : World) :
  (has_event_attrs (wrapped ev) = true →
   ∃ fs w',
     Plugin.fire p ev w = (Ok fs, w')
     ∧ task_coro <$> fs = listeners_for p (type (wrapped ev))
     ∧ Forall (λ t, task_event t = ev ∧ task_loop t = loop (client (wrapped ev))) fs
     ∧ scheduled fs w w')
  ∧ (has_event_attrs (wrapped ev) = false →
     Plugin.fire p ev w
     = (match listeners_for p (type (wrapped ev)) with
        | [] => Ok []
        | _ :: _ => Raise AttributeError
        end, w)).
Proof.
  split.
  - intros Hattrs. destruct (Plugin_fire_run p ev w Hattrs) as (w' & Hf & Hs).
    exists (listener_tasks p ev), w'. split; [done|]. split; [|split; [|done]].
    + unfold listener_tasks.
      induction (listeners_for p (type (wrapped ev))) as [|c l IH]; [done|].
      rewrite !fmap_cons. by rewrite IH.
    + unfold listener_tasks. apply Forall_fmap, Forall_true. by intros c.
  - apply Plugin_fire_no_loop.
Qed.

Lemma Plugin_fire_one_per_listener_witness :
  let ev := wrapper (sample_message "#chan" "hello") greeter_plugin in
  let lev := wrapper load_event loader_plugin in
  (∃ fs w',
     Plugin.fire greeter_plugin ev sample_world = (Ok fs, w')
     ∧ task_coro <$> fs = [3]
     ∧ Forall (λ t, task_event t = ev ∧ task_loop t = 0) fs
     ∧ scheduled fs sample_world w')
  ∧ Plugin.fire loader_plugin lev sample_world = (Raise AttributeError, sample_world).
Proof.
  split.
  - destruct (Plugin_fire_one_per_listener greeter_plugin
                (wrapper (sample_message "#chan" "hello") greeter_plugin)
                sample_world) as [Hloop _].
    apply Hloop. reflexivity.
  - destruct (Plugin_fire_one_per_listener loader_plugin
                (wrapper load_event loader_plugin) sample_world) as [_ Hnone].
    apply Hnone. reflexivity.
Defined.

(** ** Loading plugins *)

Lemma dict_get_set {V : Type} (k m : string) (v : V) (d : list (string * V)) :
  dict_get m (dict_set k v d) = if decide (m = k) then Some v else dict_get m d.
Proof.
  induction d as [|[k' v'] d IH]; simpl.
  - by destruct (decide (m = k)).
  - destruct (decide (k = k')) as [->|Hk]; simpl.
    + by destruct (decide (m = k')).
    + destruct (decide (m = k')) as [->|Hm].
      * by rewrite decide_False by done.
      * done.
Qed.

Lemma dict_set_keys {V : Type} (k : string) (v : V) (d : list (string * V)) :
  NoDup d.*1 → NoDup (dict_set k v d).*1.
Proof.
  assert (Hin : ∀ m, m ∈ (dict_set k v d).*1 → m = k ∨ m ∈ d.*1).
  { induction d as [|[k' v'] d IH]; simpl; intros m Hm.
    - apply list_elem_of_singleton in Hm. by left.
    - destruct (decide (k = k')) as [->|Hk]; simpl in Hm.
      + by right.
      + apply elem_of_cons in Hm as [->|Hm]; [right; left|].
        destruct (IH _ Hm) as [?|?]; [by left|right; by right]. }
  clear Hin. induction d as [|[k' v'] d IH]; simpl; intros Hnd.
  - apply NoDup_singleton.
  - apply NoDup_cons in Hnd as [Hk' Hnd].
    destruct (decide (k = k')) as [->|Hk]; simpl.
    + by apply NoDup_cons.
    + apply NoDup_cons. split; [|by apply IH].
      intros Hin. apply Hk'. clear IH Hnd Hk'.
      induction d as [|[k'' v''] d IH]; simpl in *.
      * apply list_elem_of_singleton in Hin. congruence.
      * destruct (decide (k = k'')) as [->|Hk'']; simpl in Hin; [done|].
        apply elem_of_cons in Hin as [->|Hin]; [left|right; by apply IH].
Qed.

Lemma load_run (known : gmap string plugin) (n : string) (w : World) :
  PluginManager.load known n w
  = match dict_get n (loaded_plugins w) with
    | Some _ => (Ok tt, w)
    | None =>
        match known !! n with
        | None => (Raise KeyError, w)
        | Some p =>
            (Ok tt, set_loaded_plugins (dict_set (name p) p (loaded_plugins w)) w)
        end
    end.
Proof.
  unfold PluginManager.load. rewrite (bind_ok get_world _ w w w eq_refl).
  destruct (dict_get n (loaded_plugins w)); [done|]. by destruct (known !! n).
Qed.

(** X10: [load] raises [KeyError], without loading anything, exactly when
    the name is neither loaded nor known.  With a registry that files every
    plugin under its own name, a [load] that returns leaves the name loaded,
    with the plugin that was loaded before or else with the known one, never
    unloads or replaces a loaded plugin, keeps the names of the loaded plugins
    distinct and touches nothing but the loaded plugins; loading twice is
    loading once. *)
Theorem load_spec (known : gmap string plugin) (n : string) (w : World) :
  registry_ok known →
  ((PluginManager.load known n w).1 = Raise KeyError
   ↔ dict_get n (loaded_plugins w) = None ∧ known !! n = None)
  ∧ ((PluginManager.load known n w).1 = Raise KeyError →
     (PluginManager.load known n w).2 = w)
  ∧ ((PluginManager.load known n w).1 = Ok tt →
     ∃ p, dict_get n (loaded_plugins (PluginManager.load known n w).2) = Some p
          ∧ (dict_get n (loaded_plugins w) = Some p
             ∨ dict_get n (loaded_plugins w) = None ∧ known !! n = Some p))
  ∧ (∀ m q, dict_get m (loaded_plugins w) = Some q →
            dict_get m (loaded_plugins (PluginManager.load known n w).2) = Some q)
  ∧ (NoDup (loaded_plugins w).*1 →
     NoDup (loaded_plugins (PluginManager.load known n w).2).*1)
  ∧ scheduled [] (set_loaded_plugins (loaded_plugins w)
                    (PluginManager.load known n w).2) w
  ∧ (PluginManager.load known n;; PluginManager.load known n) w
    = PluginManager.load known n w.
Proof.
  intros Hok.
  assert (Hidem : (PluginManager.load known n;; PluginManager.load known n) w
                  = PluginManager.load known n w).
  { unfold mbind, M_bind. rewrite (load_run known n w).
    destruct (dict_get n (loaded_plugins w)) as [p0|] eqn:Hl.
    - by rewrite load_run, Hl.
    - destruct (known !! n) as [p|] eqn:Hk; [|done].
      rewrite load_run. simpl. rewrite (Hok _ _ Hk).
      by rewrite dict_get_set, decide_True by done. }
  split; [|split; [|split; [|split; [|split; [|split; [|done]]]]]];
    rewrite ?(load_run known n w);
    destruct (dict_get n (loaded_plugins w)) as [p0|] eqn:Hl; simpl;
    try (destruct (known !! n) as [p|] eqn:Hk; simpl; rewrite ?(Hok _ _ Hk));
    try done; try (destruct w; apply scheduled_nil).
  - split; [done|]. by intros [? _].
  - split; [done|]. by intros [? _].
  - split; [done|]. by intros [_ ?].
  - intros _. exists p0. split; [done|]. by left.
  - intros _. exists p0. split; [done|]. by left.
  - intros _. exists p. rewrite dict_get_set, decide_True by done.
    split; [done|]. by right.
  - intros m q Hm. rewrite dict_get_set. case_decide; [congruence|done].
  - apply dict_set_keys.
Qed.

Lemma registry_ok_sample : registry_ok sample_known.
Proof.
  intros n p. unfold sample_known.
  destruct (decide (n = "echo")) as [->|?];
    [rewrite lookup_insert_eq; by intros [= <-]|rewrite lookup_insert_ne by done].
  destruct (decide (n = "other")) as [->|?];
    [rewrite lookup_insert_eq; by intros [= <-]|rewrite lookup_insert_ne by done].
  destruct (decide (n = "greeter")) as [->|?];
    [rewrite lookup_singleton_eq; by intros [= <-]|by rewrite lookup_singleton_ne].
Qed.

Lemma load_spec_witness :
  let known := sample_known in
  let n := "echo" in
  let w := PluginManager.init in
  ((PluginManager.load known n w).1 = Raise KeyError
   ↔ dict_get n (loaded_plugins w) = None ∧ known !! n = None)
  ∧ ((PluginManager.load known n w).1 = Raise KeyError →
     (PluginManager.load known n w).2 = w)
  ∧ ((PluginManager.load known n w).1 = Ok tt →
     ∃ p, dict_get n (loaded_plugins (PluginManager.load known n w).2) = Some p
          ∧ (dict_get n (loaded_plugins w) = Some p
             ∨ dict_get n (loaded_plugins w) = None ∧ known !! n = Some p))
  ∧ (∀ m q, dict_get m (loaded_plugins w) = Some q →
            dict_get m (loaded_plugins (PluginManager.load known n w).2) = Some q)
  ∧ (NoDup (loaded_plugins w).*1 →
     NoDup (loaded_plugins (PluginManager.load known n w).2).*1)
  ∧ scheduled [] (set_loaded_plugins (loaded_plugins w)
                    (PluginManager.load known n w).2) w
  ∧ (PluginManager.load known n;; PluginManager.load known n) w
    = PluginManager.load known n w.
Proof. apply (load_spec sample_known "echo" PluginManager.init registry_ok_sample). Defined.

Lemma load_known (known : gmap string plugin) (n : string) (p : plugin) (w : World) :
  registry_ok known → known !! n = Some p →
  ∃ w', PluginManager.load known n w = (Ok tt, w')
        ∧ scheduled [] (set_loaded_plugins (loaded_plugins w) w') w
        ∧ (∀ m q, dict_get m (loaded_plugins w) = Some q →
                  dict_get m (loaded_plugins w') = Some q)
        ∧ is_Some (dict_get n (loaded_plugins w'))
        ∧ (∀ m q, dict_get m (loaded_plugins w') = Some q →
                  dict_get m (loaded_plugins w) = Some q ∨ known !! m = Some q).
Proof.
  intros Hok Hk. rewrite load_run.
  destruct (dict_get n (loaded_plugins w)) as [p0|] eqn:Hl.
  - exists w. split; [done|]. split; [destruct w; apply scheduled_nil|].
    split; [done|]. split; [by rewrite Hl|]. intros m q Hm. by left.
  - rewrite Hk, (Hok _ _ Hk). eexists. split; [done|]. simpl.
    split; [destruct w; apply scheduled_nil|]. split; [|split].
    + intros m q Hm. rewrite dict_get_set. case_decide; [congruence|done].
    + by rewrite dict_get_set, decide_True.
    + intros m q. rewrite dict_get_set. case_decide as Hm.
      * intros [= <-]. right. by rewrite Hm.
      * by left.
Qed.

Lemma loadall_list (known : gmap string plugin) (l : list (string * plugin))
    (w : World) :
  registry_ok known →
  (∀ n p, (n, p) ∈ l → known !! n = Some p) →
  ∃ w', for_each (λ '(name, _), PluginManager.load known name) l w = (Ok tt, w')
        ∧ scheduled [] (set_loaded_plugins (loaded_plugins w) w') w
        ∧ (∀ m q, dict_get m (loaded_plugins w) = Some q →
                  dict_get m (loaded_plugins w') = Some q)
        ∧ (∀ n p, (n, p) ∈ l → is_Some (dict_get n (loaded_plugins w')))
        ∧ (∀ m q, dict_get m (loaded_plugins w') = Some q →
                  dict_get m (loaded_plugins w) = Some q ∨ known !! m = Some q).
Proof.
  intros Hok. revert w. induction l as [|[n p] l IH]; intros w Hl.
  - exists w. split; [done|]. split; [destruct w; apply scheduled_nil|].
    split; [done|]. split.
    + intros n p Hin. by apply elem_of_nil in Hin.
    + intros m q Hm. by left.
  - destruct (load_known known n p w Hok (Hl n p ltac:(left)))
      as (w1 & Hrun & Hs1 & Hmono1 & Hn & Hfrom1).
    destruct (IH w1 (λ m q Hin, Hl m q (list_elem_of_further _ _ _ Hin)))
      as (w2 & Hrun2 & Hs2 & Hmono2 & Hall & Hfrom2).
    exists w2. split; [|split; [|split; [|split]]].
    + cbn [for_each]. by rewrite (bind_ok _ _ _ _ _ Hrun).
    + destruct Hs1 as (_ & Ht1 & Hn1 & Hd1), Hs2 as (_ & Ht2 & Hn2 & Hd2).
      simpl in *. repeat split; simpl.
      * rewrite app_nil_r in *. congruence.
      * congruence.
      * intros k. etrans; [apply Hd1|apply Hd2].
    + intros m q Hm. by apply Hmono2, Hmono1.
    + intros m q Hin. apply elem_of_cons in Hin as [[= -> ->]|Hin].
      * destruct Hn as [q' Hq']. exists q'. by apply Hmono2.
      * by eapply Hall.
    + intros m q Hm. destruct (Hfrom2 _ _ Hm) as [Hm1|?]; [|by right].
      by apply Hfrom1.
Qed.

(** X11: with a registry that files every plugin under its own name,
    [loadall] never raises; afterwards every known name is loaded, a plugin
    that was loaded before is the one still loaded under its name, every
    loaded plugin was loaded before or is the known plugin of its name, and
    nothing but the loaded plugins has changed. *)
Theorem loadall_loads_all (known : gmap string plugin) (w : World) :
  registry_ok known →
  ∃ w', PluginManager.loadall known w = (Ok tt, w')
        ∧ (∀ n, is_Some (known !! n) → is_Some (dict_get n (loaded_plugins w')))
        ∧ (∀ m q, dict_get m (loaded_plugins w) = Some q →
                  dict_get m (loaded_plugins w') = Some q)
        ∧ (∀ m q, dict_get m (loaded_plugins w') = Some q →
                  dict_get m (loaded_plugins w) = Some q ∨ known !! m = Some q)
        ∧ scheduled [] (set_loaded_plugins (loaded_plugins w) w') w.
Proof.
  intros Hok.
  destruct (loadall_list known (map_to_list known) w Hok)
    as (w' & Hrun & Hs & Hmono & Hall & Hfrom).
  { intros n p Hin. by apply elem_of_map_to_list in Hin. }
  exists w'. split; [done|]. split; [|done].
  intros n [p Hp]. apply (Hall n p). by apply elem_of_map_to_list.
Qed.

Lemma loadall_loads_all_witness :
  ∃ w', PluginManager.loadall sample_known PluginManager.init = (Ok tt, w')
        ∧ (∀ n, is_Some (sample_known !! n) →
                is_Some (dict_get n (loaded_plugins w')))
        ∧ (∀ m q, dict_get m (loaded_plugins PluginManager.init) = Some q →
                  dict_get m (loaded_plugins w') = Some q)
        ∧ (∀ m q, dict_get m (loaded_plugins w') = Some q →
                  dict_get m (loaded_plugins PluginManager.init) = Some q
                  ∨ sample_known !! m = Some q)
        ∧ scheduled [] (set_loaded_plugins (loaded_plugins PluginManager.init) w')
            PluginManager.init.
Proof. apply (loadall_loads_all sample_known PluginManager.init registry_ok_sample). Defined.

(** ** What [PluginManager.fire] returns and creates *)

Lemma fire_regular (ev : event) (w : World) :
  Class.Message ∈ Class.mro (type ev) →
  PluginManager.parse_command ev w = (Ok None, w) →
  ∃ w', PluginManager.fire ev w
          = (Ok (broadcast_tasks ev (dict_values (loaded_plugins w))
                 ++ broadcast_tasks ev (dict_values (loaded_plugins w))), w')
        ∧ scheduled (broadcast_tasks ev (dict_values (loaded_plugins w))
                     ++ broadcast_tasks ev (dict_values (loaded_plugins w))) w w'.
Proof.
  intros Hm Hcl.
  pose proof (has_event_attrs_Message ev Hm) as Hattrs.
  destruct (fire_broadcast_run ev w Hattrs) as (w0 & Hf & Hs).
  destruct (fire_broadcast_run ev w0 Hattrs) as (w1 & Hf1 & Hs1).
  assert (Hl : loaded_plugins w0 = loaded_plugins w) by apply Hs.
  rewrite Hl in Hf1, Hs1.
  exists w1. split; [|by eapply scheduled_app].
  unfold PluginManager.fire. rewrite (bind_ok _ _ _ _ _ Hf).
  unfold Class.issubclass. rewrite (bool_decide_eq_true_2 _ Hm).
  rewrite (bind_ok _ _ _ _ _ (parse_run ev w w0 _ Hcl)).
  by rewrite (bind_ok _ _ _ _ _ Hf1).
Qed.

Lemma fire_parse_raises (ev : event) (e : exn) (w : World) :
  Class.Message ∈ Class.mro (type ev) →
  PluginManager.parse_command ev w = (Raise e, w) →
  ∃ w', PluginManager.fire ev w = (Raise e, w')
        ∧ scheduled (broadcast_tasks ev (dict_values (loaded_plugins w))) w w'.
Proof.
  intros Hm Hcl.
  destruct (fire_broadcast_run ev w (has_event_attrs_Message ev Hm))
    as (w0 & Hf & Hs).
  exists w0. split; [|done].
  unfold PluginManager.fire. rewrite (bind_ok _ _ _ _ _ Hf).
  unfold Class.issubclass. rewrite (bool_decide_eq_true_2 _ Hm).
  by rewrite (bind_raise _ _ _ _ _ (parse_run ev w w0 _ Hcl)).
Qed.

Lemma for_extend_returns {A : Type} (f : A → M (list Task)) (l : list A) :
  (∀ x w fs w', f x w = (Ok fs, w') → scheduled fs w w') →
  ∀ w fs w', for_extend f l w = (Ok fs, w') → scheduled fs w w'.
Proof.
  intros Hf. induction l as [|x l IH]; intros w fs w'; simpl.
  - intros [= <- <-]. apply scheduled_nil.
  - unfold mbind, M_bind. destruct (f x w) as [[ys|e] w1] eqn:Hx; [|done].
    destruct (for_extend f l w1) as [[zs|e] w2] eqn:Hl; [|done].
    intros [= <- <-]. eapply scheduled_app; eauto.
Qed.

Lemma Plugin_fire_returns (p : plugin) (ev : EventWrapper) (w w' : World)
    (fs : list Task) :
  Plugin.fire p ev w = (Ok fs, w') → scheduled fs w w'.
Proof.
  apply for_extend_returns. clear. intros c w fs w'.
  unfold event_loop. destruct (has_event_attrs (wrapped ev)); [|done].
  intros [= <- <-]. by repeat split.
Qed.

Lemma fire_broadcast_returns (ev : event) (w w' : World) (fs : list Task) :
  PluginManager._fire ev w = (Ok fs, w') → scheduled fs w w'.
Proof.
  unfold PluginManager._fire. rewrite (bind_ok get_world _ w w w eq_refl).
  apply for_extend_returns. clear. intros p w fs w'.
  unfold PluginManager._fire_on.
  destruct (wrap_event_run ev p w) as (w1 & Hw & Hs1).
  rewrite (bind_ok _ _ _ _ _ Hw). intros Hf.
  apply (scheduled_app [] _ _ _ _ Hs1). by eapply Plugin_fire_returns.
Qed.

(** X12: when [PluginManager.fire] returns, the futures it returns are
    the tasks it created, in the order of their creation, and nothing else in
    the world has changed. *)
Theorem fire_returns_created (ev : event) (fs : list Task) (w w' : World) :
  PluginManager.fire ev w = (Ok fs, w') → scheduled fs w w'.
Proof.
  unfold PluginManager.fire.
  destruct (PluginManager._fire ev w) as [[futures|e] w0] eqn:Hb.
  2:{ by rewrite (bind_raise _ _ _ _ _ Hb). }
  rewrite (bind_ok _ _ _ _ _ Hb).
  pose proof (fire_broadcast_returns ev w w0 futures Hb) as Hs.
  destruct (Class.issubclass _ _).
  2:{ by intros [= <- <-]. }
  destruct (parse_pure ev) as [r Hr].
  destruct r as [[[[pn cn] a]|]|e].
  - by rewrite (bind_ok _ _ _ _ _ (Hr w0)).
  - rewrite (bind_ok _ _ _ _ _ (Hr w0)).
    destruct (PluginManager._fire ev w0) as [[more|e] w1] eqn:Hb1.
    2:{ by rewrite (bind_raise _ _ _ _ _ Hb1). }
    rewrite (bind_ok _ _ _ _ _ Hb1). intros [= <- <-].
    eapply scheduled_app; [done|]. by eapply fire_broadcast_returns.
  - by rewrite (bind_raise _ _ _ _ _ (Hr w0)).
Qed.

Lemma fire_returns_created_witness :
  let ev := sample_message "#chan" "hello" in
  scheduled
    [task_of (wrapper ev greeter_plugin) 3; task_of (wrapper ev greeter_plugin) 3]
    sample_world
    (PluginManager.fire ev sample_world).2.
Proof.
  apply (fire_returns_created (sample_message "#chan" "hello")).
  vm_compute. reflexivity.
Defined.

Lemma creates_quiet {A : Type} (ps : list plugin) (P : Task → Prop) (m : M A) :
  (∀ w, ∃ a w', m w = (a, w') ∧ scheduled [] w w') → creates ps P m.
Proof.
  intros H w _. destruct (H w) as (a & w' & -> & Hs). by exists [].
Qed.

Lemma creates_pure {A : Type} (ps : list plugin) (P : Task → Prop) (m : M A) :
  pure m → creates ps P m.
Proof.
  intros [r Hr]. apply creates_quiet. intros w. exists r, w.
  split; [done|apply scheduled_nil].
Qed.

Lemma creates_bind {A B : Type} (ps : list plugin) (P : Task → Prop)
    (m : M A) (f : A → M B) :
  creates ps P m → (∀ a, creates ps P (f a)) → creates ps P (m ≫= f).
Proof.
  intros Hm Hf w Hw. destruct (Hm w Hw) as (ts & Hs & Hts).
  unfold mbind, M_bind. destruct (m w) as [[a|e] w1]; simpl in Hs.
  - assert (Hw1 : dict_values (loaded_plugins w1) = ps).
    { destruct Hs as (-> & _). done. }
    destruct (Hf a w1 Hw1) as (us & Hu & Hus). exists (ts ++ us).
    split; [by eapply scheduled_app|by apply Forall_app].
  - by exists ts.
Qed.

Lemma creates_for_extend {A B : Type} (ps : list plugin) (P : Task → Prop)
    (f : A → M (list B)) (l : list A) :
  (∀ x, x ∈ l → creates ps P (f x)) → creates ps P (for_extend f l).
Proof.
  induction l as [|x l IH]; intros Hf; simpl.
  - apply creates_pure, pure_ret.
  - apply creates_bind; [apply Hf; left|intros ys].
    apply creates_bind; [|intros zs; apply creates_pure, pure_ret].
    apply IH. intros y Hy. apply Hf. by right.
Qed.

Lemma listener_tasks_registered (p : plugin) (ev : event) :
  Forall (registered_task p) (listener_tasks p (wrapper ev p)).
Proof.
  unfold listener_tasks. apply Forall_fmap, Forall_forall. intros c Hc.
  split; [done|]. split; [done|]. by left.
Qed.

Lemma creates_fire_on (ps : list plugin) (ev : event) (p : plugin) :
  p ∈ ps →
  creates ps (λ t, ∃ q, q ∈ ps ∧ registered_task q t) (PluginManager._fire_on ev p).
Proof.
  intros Hp w _. destruct (has_event_attrs ev) eqn:Hattrs.
  - destruct (fire_on_run ev p w Hattrs) as (w' & -> & Hs).
    exists (listener_tasks p (wrapper ev p)). split; [done|].
    eapply Forall_impl; [apply listener_tasks_registered|]. intros t Ht.
    by exists p.
  - destruct (wrap_event_run ev p w) as (w1 & Hw & Hs1).
    unfold PluginManager._fire_on. rewrite (bind_ok _ _ _ _ _ Hw).
    rewrite (Plugin_fire_no_loop p (wrapper ev p) w1 Hattrs). by exists [].
Qed.

(** X13: whether it returns or raises, [PluginManager.fire] only creates
    tasks and changes nothing else in the world, and every task it creates
    runs a handler of a loaded plugin, a listener registered for the exact
    class of the event of the task or the command that this event names, on
    the data view of that same plugin and on the loop of the client. *)
Theorem fire_only_registered (ev : event) (w : World) :
  ∃ ts, scheduled ts w (PluginManager.fire ev w).2
        ∧ Forall (λ t, ∃ p, p ∈ dict_values (loaded_plugins w) ∧ registered_task p t)
            ts.
Proof.
  set (ps := dict_values (loaded_plugins w)).
  assert (Hb : ∀ e, creates ps (λ t, ∃ q, q ∈ ps ∧ registered_task q t)
                      (PluginManager._fire e)).
  { intros e v Hv. unfold PluginManager._fire.
    rewrite (bind_ok get_world _ v v v eq_refl), Hv.
    refine (creates_for_extend ps _ _ ps _ v Hv).
    intros p Hp. by apply creates_fire_on. }
  assert (Hfire : creates ps (λ t, ∃ q, q ∈ ps ∧ registered_task q t)
                    (PluginManager.fire ev)).
  { apply creates_bind; [apply Hb|intros futures].
    destruct (Class.issubclass _ _); [|apply creates_pure, pure_ret].
    apply creates_bind; [apply creates_pure, parse_pure|intros [[[pn cn] a]|]].
    - apply creates_quiet. intros v. exists (Raise AttributeError), v.
      split; [reflexivity|apply scheduled_nil].
    - apply creates_bind; [apply Hb|intros more]. apply creates_pure, pure_ret. }
  by apply Hfire.
Qed.

(** ** Commands: what the routes do, and what [fire] does *)

Lemma global_command_tasks_elem (cev : event) (c : CommandAttrs)
    (ps : list plugin) (t : Task) :
  command_attrs cev = Some c →
  t ∈ global_command_tasks cev ps
  ↔ ∃ p cmd, p ∈ ps ∧ commands p !! command_name c = Some cmd
             ∧ is_global cmd = true ∧ t = task_of (wrapper cev p) (coro cmd).
Proof.
  intros Hc. unfold global_command_tasks. rewrite list_elem_of_bind. split.
  - intros (p & Ht & Hp). unfold command_tasks in Ht. simpl in Ht.
    rewrite Hc in Ht.
    destruct (commands p !! command_name c) as [cmd|] eqn:Hcmd;
      [|by apply elem_of_nil in Ht].
    rewrite orb_false_r in Ht. destruct (is_global cmd) eqn:Hg;
      [|by apply elem_of_nil in Ht].
    apply list_elem_of_singleton in Ht. by exists p, cmd.
  - intros (p & cmd & Hp & Hcmd & Hg & ->). exists p. split; [|done].
    unfold command_tasks. simpl. rewrite Hc, Hcmd, Hg. left.
Qed.

(** X14: [_fire_global_command], given a command event, never raises: it
    returns one task for every loaded plugin that has a command of that name
    registered as global, in the order of the plugins, on the command event
    and with the data view of that plugin, and these are the tasks it
    created; commands registered as local-only are passed over in every
    plugin. *)
Theorem fire_global_command_path (cev : event) (c : CommandAttrs) (w : World) :
  command_attrs cev = Some c →
  ∃ w',
    PluginManager._fire_global_command cev w
      = (Ok (global_command_tasks cev (dict_values (loaded_plugins w))), w')
    ∧ scheduled (global_command_tasks cev (dict_values (loaded_plugins w))) w w'
    ∧ ∀ t, t ∈ global_command_tasks cev (dict_values (loaded_plugins w))
           ↔ ∃ p cmd, p ∈ dict_values (loaded_plugins w)
                      ∧ commands p !! command_name c = Some cmd
                      ∧ is_global cmd = true
                      ∧ t = task_of (wrapper cev p) (coro cmd).
Proof.
  intros Hc.
  destruct (fire_global_command_run cev c w Hc) as (w' & Hf & Hs).
  exists w'. split; [done|]. split; [done|].
  intros t. by apply global_command_tasks_elem.
Qed.

Lemma fire_global_command_path_witness :
  let cev := command_object (sample_message "" "shout hi") "shout" "hi" in
  let c := {| command_name := "shout"; argstr := "hi"; command_args := ["hi"] |} in
  let w := sample_world in
  global_command_tasks cev (dict_values (loaded_plugins w))
  = [task_of (wrapper cev echo_plugin) 8; task_of (wrapper cev other_plugin) 9]
  ∧ ∃ w',
      PluginManager._fire_global_command cev w
        = (Ok (global_command_tasks cev (dict_values (loaded_plugins w))), w')
      ∧ scheduled (global_command_tasks cev (dict_values (loaded_plugins w))) w w'
      ∧ ∀ t, t ∈ global_command_tasks cev (dict_values (loaded_plugins w))
             ↔ ∃ p cmd, p ∈ dict_values (loaded_plugins w)
                        ∧ commands p !! command_name c = Some cmd
                        ∧ is_global cmd = true
                        ∧ t = task_of (wrapper cev p) (coro cmd).
Proof.
  split; [vm_compute; reflexivity|].
  apply (fire_global_command_path
           (command_object (sample_message "" "shout hi") "shout" "hi")
           {| command_name := "shout"; argstr := "hi"; command_args := ["hi"] |}
           sample_world).
  reflexivity.
Defined.

(** X24: every message that [fire] takes as a command, addressed to the
    bot or private, makes [fire] raise [AttributeError]: after the first
    broadcast and the parse, [event.source] is read, which no event has.  The
    listener tasks of the broadcast are all that was created; no command
    handler is run. *)
Theorem fire_command_message_raises (ev : event) (pn cn a : string) (w : World) :
  Class.Message ∈ Class.mro (type ev) →
  PluginManager.parse_command ev w = (Ok (Some (pn, cn, a)), w) →
  ∃ w', PluginManager.fire ev w = (Raise AttributeError, w')
        ∧ scheduled (broadcast_tasks ev (dict_values (loaded_plugins w))) w w'.
Proof.
  intros Hm Hp.
  destruct (fire_command_branch ev pn cn a w Hm Hp) as (w0 & _ & Hs & Hf).
  by exists w0.
Qed.

Lemma fire_command_message_raises_witness :
  let ev := sample_message "dywypi" "dywypi: echo foo" in
  broadcast_tasks ev (dict_values (loaded_plugins sample_world))
  = [task_of (wrapper ev greeter_plugin) 3]
  ∧ ∃ w', PluginManager.fire ev sample_world = (Raise AttributeError, w')
          ∧ scheduled (broadcast_tasks ev (dict_values (loaded_plugins sample_world)))
              sample_world w'.
Proof.
  split; [vm_compute; reflexivity|].
  apply (fire_command_message_raises (sample_message "dywypi" "dywypi: echo foo")
           "" "echo" "foo" sample_world).
  - left.
  - reflexivity.
Defined.

(** X15: a private message that is empty or made of whitespace only, and
    is not taken as addressed, is taken as a command all the same: the parse
    gives it the empty command name, no plugin name and the empty argument
    string; [fire] then raises [AttributeError] at [event.source], with the
    listener tasks of the first broadcast created and no command run. *)
Theorem fire_blank_private_message (ev : event) (text : string) (w : World) :
  Class.Message ∈ Class.mro (type ev) →
  args (raw_message ev) !! 0 = Some "" →
  args (raw_message ev) !! 1 = Some text →
  PyStr.lstrip text = "" →
  PluginManager.is_command text (nick (client ev)) w = (Ok false, w) →
  PluginManager.parse_command ev w = (Ok (Some ("", "", "")), w)
  ∧ ∃ w', PluginManager.fire ev w = (Raise AttributeError, w')
          ∧ scheduled (broadcast_tasks ev (dict_values (loaded_plugins w))) w w'.
Proof.
  intros Hm H0 H1 Hblank Hic.
  assert (Hp : PluginManager.parse_command ev w = (Ok (Some ("", "", "")), w)).
  { apply (parse_command_word ev w "" text "" "" false Hm H0 H1 Hic); [done|].
    rewrite split_command_word. by rewrite Hblank. }
  split; [done|].
  destruct (fire_command_branch ev "" "" "" w Hm Hp) as (w0 & _ & Hs & Hf).
  by exists w0.
Qed.

Lemma fire_blank_private_message_witness :
  let ev := sample_message "" "   " in
  let w := sample_world in
  PluginManager.parse_command ev w = (Ok (Some ("", "", "")), w)
  ∧ ∃ w', PluginManager.fire ev w = (Raise AttributeError, w')
          ∧ scheduled (broadcast_tasks ev (dict_values (loaded_plugins w))) w w'.
Proof.
  apply (fire_blank_private_message (sample_message "" "   ") "   " sample_world).
  - left.
  - reflexivity.
  - reflexivity.
  - reflexivity.
  - reflexivity.
Defined.

(** ** Events that are not messages, and messages that are too short *)

Lemma times_app (h : nat) (ts us : list Task) :
  times h (ts ++ us) = times h ts + times h us.
Proof. unfold times. by rewrite filter_app, length_app. Qed.

Lemma times_task_of (h : nat) (ev : EventWrapper) (l : list nat) :
  times h (task_of ev <$> l) = length (filter (λ c, c = h) l).
Proof.
  unfold times. induction l as [|c l IH]; [done|].
  rewrite fmap_cons, !filter_cons. simpl.
  destruct (decide (c = h)); simpl; by rewrite IH.
Qed.

Lemma times_broadcast (h : nat) (ev : event) (ps : list plugin) :
  times h (broadcast_tasks ev ps)
  = sum_list ((λ p, length (filter (λ c, c = h) (listeners_for p (type ev)))) <$> ps).
Proof.
  unfold broadcast_tasks. induction ps as [|p ps IH]; [done|].
  rewrite bind_cons, times_app, IH, fmap_cons.
  unfold listener_tasks. by rewrite times_task_of.
Qed.

(** X16: an event of a class below [Event] that is not a [Message] is
    delivered exactly once: [fire] does not raise on it and returns the
    listener tasks of the loaded plugins, so that a handler is scheduled as
    often as it is listed, over all loaded plugins, for the exact class of the
    event. *)
Theorem fire_plain_event_once (ev : event) (w : World) :
  Class.Event ∈ Class.mro (type ev) →
  Class.Message ∉ Class.mro (type ev) →
  ∃ fs w',
    PluginManager.fire ev w = (Ok fs, w')
    ∧ scheduled fs w w'
    ∧ fs = broadcast_tasks ev (dict_values (loaded_plugins w))
    ∧ ∀ h, times h fs
           = sum_list ((λ p, length (filter (λ c, c = h)
                                       (listeners_for p (type ev))))
                       <$> dict_values (loaded_plugins w)).
Proof.
  intros He Hm.
  destruct (fire_other_event ev w (has_event_attrs_Event ev He) Hm)
    as (w' & Hf & Hs).
  eexists _, w'. split; [done|]. split; [done|]. split; [done|].
  intros h. apply times_broadcast.
Qed.

Lemma fire_plain_event_once_witness :
  let ev := notice_event in
  let w := watcher_world in
  broadcast_tasks ev (dict_values (loaded_plugins w))
  = [task_of (wrapper ev watcher_plugin) 5]
  ∧ ∃ fs w',
      PluginManager.fire ev w = (Ok fs, w')
      ∧ scheduled fs w w'
      ∧ fs = broadcast_tasks ev (dict_values (loaded_plugins w))
      ∧ ∀ h, times h fs
             = sum_list ((λ p, length (filter (λ c, c = h)
                                         (listeners_for p (type ev))))
                         <$> dict_values (loaded_plugins w)).
Proof.
  split; [vm_compute; reflexivity|].
  apply (fire_plain_event_once notice_event watcher_world).
  - right. left.
  - intros H. repeat (apply elem_of_cons in H as [H|H]; [discriminate|]).
    by apply elem_of_nil in H.
Defined.

Lemma for_extend_no_loop (ev : event) (ps : list plugin) (w : World) :
  has_event_attrs ev = false →
  ∃ w', for_extend (PluginManager._fire_on ev) ps w
        = (if decide (Forall (λ p, listeners_for p (type ev) = []) ps)
           then Ok [] else Raise AttributeError, w')
        ∧ scheduled [] w w'.
Proof.
  intros Hattrs. revert w. induction ps as [|p ps IH]; intros w.
  - exists w. split; [|apply scheduled_nil]. by rewrite decide_True.
  - destruct (wrap_event_run ev p w) as (w1 & Hw & Hs1).
    pose proof (Plugin_fire_no_loop p (wrapper ev p) w1 Hattrs) as Hf.
    cbn [for_extend]. unfold PluginManager._fire_on at 1.
    cbn [wrapper wrapped] in Hf.
    destruct (listeners_for p (type ev)) as [|c l] eqn:Hl.
    + destruct (IH w1) as (w2 & Hrest & Hs2).
      exists w2. split; [|apply (scheduled_app [] [] _ _ _ Hs1 Hs2)].
      rewrite (bind_ok _ _ _ _ _ (bind_ok_eq _ _ _ _ _ _ Hw Hf)).
      case_decide as Hall.
      * rewrite (bind_ok _ _ _ _ _ Hrest).
        rewrite decide_True; [done|]. by apply Forall_cons.
      * rewrite (bind_raise _ _ _ _ _ Hrest).
        rewrite decide_False; [done|]. intros Hall'. apply Hall.
        by apply Forall_cons in Hall' as [_ ?].
    + exists w1. split; [|done].
      rewrite (bind_raise _ _ _ _ _ (bind_ok_eq _ _ _ _ _ _ Hw Hf)).
      rewrite decide_False; [done|]. intros Hall.
      apply Forall_cons in Hall as [Hnil _]. congruence.
Qed.

(** X23: an event that has no loop, such as a [Load] event, is delivered
    only as long as no loaded plugin lists a listener for its class: then
    [fire] returns no future.  When some loaded plugin lists one, [fire]
    raises [AttributeError] at [event.loop].  In both cases no task is
    created. *)
Theorem fire_system_event (ev : event) (w : World) :
  has_event_attrs ev = false →
  ∃ w', PluginManager.fire ev w
        = (if decide (Forall (λ p, listeners_for p (type ev) = [])
                        (dict_values (loaded_plugins w)))
           then Ok [] else Raise AttributeError, w')
        ∧ scheduled [] w w'.
Proof.
  intros Hattrs.
  assert (Hm : Class.Message ∉ Class.mro (type ev)).
  { intros Hm. apply has_event_attrs_Message in Hm. congruence. }
  destruct (for_extend_no_loop ev (dict_values (loaded_plugins w)) w Hattrs)
    as (w' & Hf & Hs).
  exists w'. split; [|done].
  assert (Hb : PluginManager._fire ev w
               = (if decide (Forall (λ p, listeners_for p (type ev) = [])
                               (dict_values (loaded_plugins w)))
                  then Ok [] else Raise AttributeError, w')).
  { unfold PluginManager._fire. by rewrite (bind_ok get_world _ w w w eq_refl). }
  unfold PluginManager.fire. revert Hb. case_decide as Hall; intros Hb.
  - rewrite (bind_ok _ _ _ _ _ Hb).
    unfold Class.issubclass. by rewrite (bool_decide_eq_false_2 _ Hm).
  - by rewrite (bind_raise _ _ _ _ _ Hb).
Qed.

Lemma fire_system_event_witness :
  (∃ w', PluginManager.fire load_event sample_world = (Ok [], w')
         ∧ scheduled [] sample_world w')
  ∧ (∃ w', PluginManager.fire load_event watcher_world = (Raise AttributeError, w')
           ∧ scheduled [] watcher_world w').
Proof.
  split.
  - apply (fire_system_event load_event sample_world). reflexivity.
  - apply (fire_system_event load_event watcher_world). reflexivity.
Defined.

(** X17: a [Message] whose raw message has fewer than two arguments makes
    [fire] raise [IndexError], out of [event.channel] or [event.message],
    after the listener tasks of the first broadcast have been created. *)
Theorem fire_short_message_raises (ev : event) (w : World) :
  Class.Message ∈ Class.mro (type ev) →
  length (args (raw_message ev)) < 2 →
  ∃ w', PluginManager.fire ev w = (Raise IndexError, w')
        ∧ scheduled (broadcast_tasks ev (dict_values (loaded_plugins w))) w w'.
Proof.
  intros Hm Hlen. apply fire_parse_raises; [done|].
  unfold PluginManager.parse_command, Message.channel, Message.message.
  destruct (args (raw_message ev)) as [|chan [|text rest]] eqn:Ha.
  - apply bind_raise. unfold Message.arg, Class.issubclass.
    by rewrite (bool_decide_eq_true_2 _ Hm), Ha.
  - rewrite (bind_ok _ _ _ _ _ (arg_run 0 ev chan w Hm ltac:(by rewrite Ha))).
    apply bind_raise. unfold Message.arg, Class.issubclass.
    by rewrite (bool_decide_eq_true_2 _ Hm), Ha.
  - simpl in Hlen. lia.
Qed.

Lemma fire_short_message_raises_witness :
  let ev := {| type := Class.Message; client := sample_client;
               raw_message := {| args := ["#chan"] |}; command_attrs := None |} in
  ∃ w', PluginManager.fire ev sample_world = (Raise IndexError, w')
        ∧ scheduled (broadcast_tasks ev (dict_values (loaded_plugins sample_world)))
            sample_world w'.
Proof.
  apply (fire_short_message_raises
           {| type := Class.Message; client := sample_client;
              raw_message := {| args := ["#chan"] |}; command_attrs := None |}
           sample_world).
  - left.
  - simpl. lia.
Defined.

(** ** The data view *)

Lemma getitem_run (ev : EventWrapper) (key : string) (w : World) :
  PluginDataWrapper.getitem ev key w
  = match general (data_of w (data ev)) with
    | None => (Raise AttributeError, w)
    | Some g => match g !! key with
                | Some v => (Ok v, w)
                | None => (Raise KeyError, w)
                end
    end.
Proof.
  unfold PluginDataWrapper.getitem. rewrite (bind_ok get_world _ w w w eq_refl).
  destruct (general _) as [g|]; [|done]. by destruct (g !! key).
Qed.

(** X18: storing a value under a key through the data view of a plugin
    whose general mapping is there makes every view of that plugin read the
    value back under the key and read the other keys as before (a key that
    was never stored raises [KeyError]); the length is the number of keys;
    the instances kept per channel, the data of the other plugins, the loaded
    plugins and the tasks are untouched. *)
Theorem setitem_getitem (ev : EventWrapper) (key value : string) (w : World)
    (g : gmap string string) :
  general (data_of w (data ev)) = Some g →
  ∃ w',
    PluginDataWrapper.setitem ev key value w = (Ok tt, w')
    ∧ (∀ ev', data ev' = data ev →
         PluginDataWrapper.getitem ev' key w' = (Ok value, w'))
    ∧ (∀ ev' k', data ev' = data ev → k' ≠ key →
         PluginDataWrapper.getitem ev' k' w'
         = match g !! k' with
           | Some v => (Ok v, w')
           | None => (Raise KeyError, w')
           end)
    ∧ PluginDataWrapper.len ev w'
      = (Ok (match g !! key with Some _ => size g | None => S (size g) end), w')
    ∧ per_channel (data_of w' (data ev)) = per_channel (data_of w (data ev))
    ∧ (∀ k, k ≠ data ev → data_of w' k = data_of w k)
    ∧ loaded_plugins w' = loaded_plugins w ∧ tasks w' = tasks w
    ∧ next_id w' = next_id w.
Proof.
  intros Hg. eexists. split.
  { unfold PluginDataWrapper.setitem.
    rewrite (bind_ok get_world _ w w w eq_refl), Hg. reflexivity. }
  assert (Hd : data_of
                 (set_plugin_data
                    (<[data ev := {| general := Some (<[key := value]> g);
                                     per_channel := per_channel (data_of w (data ev)) |}]>
                       (plugin_data w)) w) (data ev)
               = {| general := Some (<[key := value]> g);
                    per_channel := per_channel (data_of w (data ev)) |}).
  { unfold data_of at 1. simpl. by rewrite lookup_insert_eq. }
  split; [|split; [|split; [|split; [|split]]]].
  - intros ev' Hev. rewrite getitem_run, Hev, Hd. simpl.
    by rewrite lookup_insert_eq.
  - intros ev' k' Hev Hk. rewrite getitem_run, Hev, Hd. simpl.
    by rewrite lookup_insert_ne.
  - unfold PluginDataWrapper.len.
    rewrite (bind_ok get_world _ _ _ _ eq_refl), Hd. simpl.
    destruct (g !! key) as [v|] eqn:Hk.
    + by rewrite map_size_insert_Some by (by exists v).
    + by rewrite map_size_insert_None.
  - by rewrite Hd.
  - intros k Hk. by apply set_data_other.
  - done.
Qed.

Lemma setitem_getitem_witness :
  let ev := wrapper (sample_message "#chan" "hi") echo_plugin in
  let g : gmap string string := {["a" := "1"; "b" := "2"]} in
  ∃ w',
    PluginDataWrapper.setitem ev "a" "3" sample_data_world = (Ok tt, w')
    ∧ (∀ ev', data ev' = data ev →
         PluginDataWrapper.getitem ev' "a" w' = (Ok "3", w'))
    ∧ (∀ ev' k', data ev' = data ev → k' ≠ "a" →
         PluginDataWrapper.getitem ev' k' w'
         = match g !! k' with
           | Some v => (Ok v, w')
           | None => (Raise KeyError, w')
           end)
    ∧ PluginDataWrapper.len ev w'
      = (Ok (match g !! "a" with Some _ => size g | None => S (size g) end), w')
    ∧ per_channel (data_of w' (data ev))
      = per_channel (data_of sample_data_world (data ev))
    ∧ (∀ k, k ≠ data ev → data_of w' k = data_of sample_data_world k)
    ∧ loaded_plugins w' = loaded_plugins sample_data_world
    ∧ tasks w' = tasks sample_data_world
    ∧ next_id w' = next_id sample_data_world.
Proof.
  apply (setitem_getitem (wrapper (sample_message "#chan" "hi") echo_plugin)
           "a" "3" sample_data_world {["a" := "1"; "b" := "2"]}).
  reflexivity.
Defined.

Lemma perform_general_none (a : action) (w : World) (k : string) :
  general (data_of w k) = None → general (data_of (perform a w) k) = None.
Proof.
  intros Hn. destruct (decide (view_of a = Some k)) as [Hv|Hv].
  2:{ by rewrite perform_frame. }
  destruct a as [ev|known n|ev cls|ev key|ev key value|ev key|ev];
    simpl in Hv; try done; injection Hv as <-; simpl.
  - destruct (per_channel_cases ev cls w)
      as [[e ->]|[(chan & i & _ & _ & ->)
                 |[(chan & i & w' & _ & _ & _ & -> & _ & _ & _ & _ & Hg & _)
                  |(chan & e & w' & _ & _ & -> & _ & _ & _ & Hg & _)]]];
      try done; simpl; by rewrite Hg.
  - by rewrite getitem_run, Hn.
  - unfold PluginDataWrapper.setitem.
    rewrite (bind_ok get_world _ w w w eq_refl). by rewrite Hn.
  - unfold PluginDataWrapper.delitem.
    rewrite (bind_ok get_world _ w w w eq_refl). by rewrite Hn.
  - unfold PluginDataWrapper.len.
    rewrite (bind_ok get_world _ w w w eq_refl). by rewrite Hn.
Qed.

Lemma run_general_none (l : list action) (w : World) (k : string) :
  general (data_of w k) = None → general (data_of (run l w) k) = None.
Proof.
  revert w. induction l as [|a l IH]; intros w Hn; [done|].
  simpl. apply IH. by apply perform_general_none.
Qed.

(** X19: once [del data[k]] has succeeded for a plugin, nothing that the
    transport or the handlers do afterwards brings the general mapping of the
    plugin back: after any sequence of deliveries, loads and uses of data
    views, reading, storing, deleting and taking the length through a view of
    that plugin all raise [AttributeError] and change nothing. *)
Theorem deleted_general_stays_deleted (ev ev' : EventWrapper)
    (key k' v : string) (l : list action) (w0 : World) :
  (PluginDataWrapper.delitem ev key w0).1 = Ok tt →
  data ev' = data ev →
  let w := run l (PluginDataWrapper.delitem ev key w0).2 in
  PluginDataWrapper.getitem ev' k' w = (Raise AttributeError, w)
  ∧ PluginDataWrapper.setitem ev' k' v w = (Raise AttributeError, w)
  ∧ PluginDataWrapper.delitem ev' k' w = (Raise AttributeError, w)
  ∧ PluginDataWrapper.len ev' w = (Raise AttributeError, w).
Proof.
  intros Hdel Hev w.
  assert (Hn : general (data_of w (data ev')) = None).
  { subst w. apply run_general_none. rewrite Hev. revert Hdel.
    unfold PluginDataWrapper.delitem.
    rewrite (bind_ok get_world _ w0 w0 w0 eq_refl).
    destruct (general (data_of w0 (data ev))) as [g|]; [|done].
    intros _. unfold data_of. simpl. by rewrite lookup_insert_eq. }
  split; [by rewrite getitem_run, Hn|].
  unfold PluginDataWrapper.setitem, PluginDataWrapper.delitem, PluginDataWrapper.len.
  rewrite !(bind_ok get_world _ w w w eq_refl). by rewrite Hn.
Qed.

Lemma deleted_general_stays_deleted_witness :
  let ev := wrapper (sample_message "#chan" "hi") echo_plugin in
  let w := run [SetItem ev "a" "1"; Fire (sample_message "#chan" "hi")]
             (PluginDataWrapper.delitem ev "a" sample_data_world).2 in
  PluginDataWrapper.getitem ev "b" w = (Raise AttributeError, w)
  ∧ PluginDataWrapper.setitem ev "b" "2" w = (Raise AttributeError, w)
  ∧ PluginDataWrapper.delitem ev "b" w = (Raise AttributeError, w)
  ∧ PluginDataWrapper.len ev w = (Raise AttributeError, w).
Proof.
  apply (deleted_general_stays_deleted
           (wrapper (sample_message "#chan" "hi") echo_plugin)
           (wrapper (sample_message "#chan" "hi") echo_plugin)
           "a" "b" "2"
           [SetItem (wrapper (sample_message "#chan" "hi") echo_plugin) "a" "1";
            Fire (sample_message "#chan" "hi")]
           sample_data_world).
  - reflexivity.
  - reflexivity.
Defined.

Lemma per_channel_hit (ev : EventWrapper) (cls chan : string) (i : instance)
    (w : World) :
  Class.Message ∈ Class.mro (type (wrapped ev)) →
  args (raw_message (wrapped ev)) !! 0 = Some chan →
  stored w (data ev) chan cls = Some i →
  PluginDataWrapper.per_channel ev cls w = (Ok i, w).
Proof.
  intros Hm Hc Hs. unfold PluginDataWrapper.per_channel, Message.channel.
  rewrite (bind_ok _ _ _ _ _ (arg_run 0 _ chan w Hm Hc)).
  rewrite (bind_ok get_world _ w w w eq_refl).
  unfold stored in Hs.
  destruct (per_channel (data_of w (data ev)) !! chan) as [d|]; [|done].
  simpl in *. by rewrite Hs.
Qed.

Lemma per_channel_result (ev : EventWrapper) (cls chan : string) (i : instance)
    (w w' : World) :
  PluginDataWrapper.per_channel ev cls w = (Ok i, w') →
  args (raw_message (wrapped ev)) !! 0 = Some chan →
  Class.Message ∈ Class.mro (type (wrapped ev))
  ∧ stored w' (data ev) chan cls = Some i.
Proof.
  intros Hrun Hchan. split.
  - revert Hrun. unfold PluginDataWrapper.per_channel, Message.channel, Message.arg,
      Class.issubclass.
    case_bool_decide as Hm; [done|]. unfold mbind, M_bind, raise. done.
  - by destruct (per_channel_stored ev cls chan i w w' Hrun Hchan) as [_ ?].
Qed.

(** X20: the instance that [per_channel] has returned for a plugin, a
    channel and a slot class is the one it returns from then on: after any
    sequence of deliveries, loads and uses of data views, a call through any
    view of that plugin on a message of that channel returns the same
    instance and changes nothing. *)
Theorem per_channel_same_instance (between : list action) (ev1 ev2 : EventWrapper)
    (T chan : string) (i : instance) (w w1 : World) :
  PluginDataWrapper.per_channel ev1 T w = (Ok i, w1) →
  args (raw_message (wrapped ev1)) !! 0 = Some chan →
  args (raw_message (wrapped ev2)) !! 0 = Some chan →
  Class.Message ∈ Class.mro (type (wrapped ev2)) →
  data ev2 = data ev1 →
  PluginDataWrapper.per_channel ev2 T (run between w1) = (Ok i, run between w1).
Proof.
  intros Hrun Hc1 Hc2 Hm Hd.
  destruct (per_channel_result ev1 T chan i w w1 Hrun Hc1) as [_ Hs].
  apply (per_channel_hit ev2 T chan); [done|done|].
  rewrite Hd. by apply run_keeps.
Qed.

Lemma per_channel_same_instance_witness :
  let ev1 := wrapper (sample_message "#a" "hi") echo_plugin in
  let ev2 := wrapper (sample_message "#a" "again") echo_plugin in
  let w1 := (PluginDataWrapper.per_channel ev1 "Counter" PluginManager.init).2 in
  let between := [PerChannel (wrapper (sample_message "#b" "hi") echo_plugin) "Counter";
                  DelItem ev1 "a"] in
  PluginDataWrapper.per_channel ev2 "Counter" (run between w1)
  = (Ok {| inst_id := 0; inst_class := "Counter"; inst_channel := "#a" |},
     run between w1).
Proof.
  apply (per_channel_same_instance
           [PerChannel (wrapper (sample_message "#b" "hi") echo_plugin) "Counter";
            DelItem (wrapper (sample_message "#a" "hi") echo_plugin) "a"]
           (wrapper (sample_message "#a" "hi") echo_plugin)
           (wrapper (sample_message "#a" "again") echo_plugin)
           "Counter" "#a"
           {| inst_id := 0; inst_class := "Counter"; inst_channel := "#a" |}
           PluginManager.init).
  - reflexivity.
  - reflexivity.
  - reflexivity.
  - left.
  - reflexivity.
Defined.

Lemma per_channel_tasks (ev : EventWrapper) (cls : string) (w : World) :
  tasks (PluginDataWrapper.per_channel ev cls w).2 = tasks w.
Proof.
  unfold PluginDataWrapper.per_channel, Message.channel, Message.arg,
    mbind, M_bind, get_world, raise.
  destruct (Class.issubclass _ _); [|done].
  destruct (args _ !! 0) as [chan|]; [|done]. simpl.
  destruct (default ∅ _ !! cls); [done|].
  by destruct (construct cls chan).
Qed.

(** X21: [per_channel] needs the channel of a message: through the view
    of an event that is not a [Message] it raises [AttributeError], and on a
    message without arguments [IndexError], leaving the world as it was; and
    whatever its outcome, it creates no task, loads nothing, builds at most
    one object and leaves the general mapping of every plugin and all the
    data of the other plugins as they were. *)
Theorem per_channel_effects (ev : EventWrapper) (cls : string) (w : World) :
  (Class.Message ∉ Class.mro (type (wrapped ev)) →
   PluginDataWrapper.per_channel ev cls w = (Raise AttributeError, w))
  ∧ (Class.Message ∈ Class.mro (type (wrapped ev)) →
     args (raw_message (wrapped ev)) = [] →
     PluginDataWrapper.per_channel ev cls w = (Raise IndexError, w))
  ∧ tasks (PluginDataWrapper.per_channel ev cls w).2 = tasks w
  ∧ loaded_plugins (PluginDataWrapper.per_channel ev cls w).2 = loaded_plugins w
  ∧ next_id w ≤ next_id (PluginDataWrapper.per_channel ev cls w).2 ≤ S (next_id w)
  ∧ (∀ k, general (data_of (PluginDataWrapper.per_channel ev cls w).2 k)
          = general (data_of w k))
  ∧ (∀ k, k ≠ data ev →
          data_of (PluginDataWrapper.per_channel ev cls w).2 k = data_of w k).
Proof.
  split; [|split].
  - intros Hm. unfold PluginDataWrapper.per_channel, Message.channel, Message.arg,
      Class.issubclass.
    by rewrite (bool_decide_eq_false_2 _ Hm).
  - intros Hm Ha. unfold PluginDataWrapper.per_channel, Message.channel, Message.arg,
      Class.issubclass.
    by rewrite (bool_decide_eq_true_2 _ Hm), Ha.
  - split; [apply per_channel_tasks|].
    destruct (per_channel_cases ev cls w)
      as [[e ->]|[(chan & i & _ & _ & ->)
                 |[(chan & i & w' & _ & _ & _ & -> & Hn & _ & Hl & Hd & Hg & _)
                  |(chan & e & w' & _ & _ & -> & Hn & Hl & Hd & Hg & _)]]]; simpl;
      try (repeat split; (done || lia)).
    + split; [done|]. split; [lia|]. split; [|done].
      intros k. destruct (decide (k = data ev)) as [->|Hk]; [done|].
      by rewrite Hd.
    + split; [done|]. split; [lia|]. split; [|done].
      intros k. destruct (decide (k = data ev)) as [->|Hk]; [done|].
      by rewrite Hd.
Qed.
